(** * Distributed frame dispatcher of src/tools.py

    A shallow embedding of the render wrapper at the end of
    [src/tools.py] (functions [shell] to [BlenderRender._run]) and the
    properties of its frame partitioner, command builder, timestamp
    guard and launch / retrieval sequence.

    Conventions of the embedding:
    - Python [int] is [Z]; [//] and [%] are [Z.div] and [Z.modulo]
      (both round towards minus infinity, as Python does).
    - Python [str] is [string]; the text is taken to be ASCII, so the
      regex class [\d] is the ten characters 0-9.
    - a raised exception is the [Err] case of [res], tagged with the
      exception class.
    - a [dict] used as a map is a [gmap].
    - the processes the code starts, waits on and reads from are events
      of a trace; what they print and return is given by a [World]. *)

From Stdlib Require Import Ascii.
From stdpp Require Import gmap strings list fin_maps pretty.

Open Scope Z_scope.

(** ** Exceptions *)

(** The classes of the exceptions the embedded code can raise, and the
    two names of the error taxonomy of the specification
    ([ConfigurationError], [ParseError]); no path of the source raises
    either of these two. *)
Inductive exn : Set :=
| ZeroDivisionError
| StopIteration
| TypeError
| ValueError
| KeyError
| IndexError
| ConfigurationError
| ParseError.

#[global] Instance exn_eq_dec : EqDecision exn.
Proof. solve_decision. Defined.

(** The outcome of a call: a value, or a raised exception. *)
Inductive res (A : Type) : Type :=
| Ok (a : A)
| Err (e : exn).
Arguments Ok {A} a.
Arguments Err {A} e.

#[global] Instance res_ret : MRet res := λ A a, Ok a.
#[global] Instance res_bind : MBind res := λ A B f r,
  match r with
  | Ok a => f a
  | Err e => Err e
  end.

(** ** Frame range partitioner: [slice_list] *)

Section Partitioner.
Context {A : Type}.

(** [n] successive [result[i].append(next(iterator))]: the items taken
    and the iterator that is left; [next] on an exhausted iterator
    raises [StopIteration]. *)
Fixpoint take_next (n : nat) (iterator : list A) : res (list A * list A) :=
  match n with
  | O => Ok ([], iterator)
  | S n' =>
      match iterator with
      | [] => Err StopIteration
      | x :: iterator' =>
          '(xs, rest) ← take_next n' iterator';
          Ok (x :: xs, rest)
      end
  end.

(** The body of [for i in range(size)], [iters] iterations to go. *)
Fixpoint slice_loop (iters : nat) (slice_size remain : Z)
    (iterator : list A) (result : list (list A)) : res (list (list A)) :=
  match iters with
  | O => Ok result
  | S iters' =>
      '(chunk, it1) ← take_next (Z.to_nat slice_size) iterator;
      if bool_decide (remain ≠ 0) then
        match it1 with
        | [] => Err StopIteration
        | x :: it2 =>
            slice_loop iters' slice_size (remain - 1) it2
                       (result ++ [chunk ++ [x]])
        end
      else slice_loop iters' slice_size remain it1 (result ++ [chunk])
  end.

Definition slice_list (input : list A) (size : Z) : res (list (list A)) :=
  let input_size := Z.of_nat (length input) in
  if bool_decide (size = 0) then Err ZeroDivisionError
  else
    let slice_size := input_size / size in
    let remain := input_size `mod` size in
    slice_loop (Z.to_nat size) slice_size remain input [].

End Partitioner.

(** The dict comprehension [{k: v for k, v in pairs}]: the pairs are
    stored from left to right, a later pair replaces an earlier one with
    the same key. *)
Definition dict_of_pairs {V} (pairs : list (string * V)) : gmap string V :=
  fold_left (λ d kv, <[kv.1 := kv.2]> d) pairs ∅.

Definition split_frames_per_host {A} (frames : list A) (hosts : list string)
    : res (gmap string (list A)) :=
  frame_slices ← slice_list frames (Z.of_nat (length hosts));
  Ok (dict_of_pairs (zip hosts frame_slices)).

(** ** Strings *)

(** [str(f)] of an [int]. *)
Definition str (f : Z) : string := pretty f.

(** [sep.join(l)]. *)
Fixpoint str_join (sep : string) (l : list string) : string :=
  match l with
  | [] => ""
  | s :: l' =>
      match l' with
      | [] => s
      | _ :: _ => s +:+ sep +:+ str_join sep l'
      end
  end.

(** [str.format] with positional and keyword arguments, for templates
    made of literal text, automatic fields [{}] and named fields
    [{name}] (all the templates of the source are of this kind; doubled
    braces and format specifications are not modelled). [field] is the
    name read so far when the scan is inside braces. Field values are
    strings. *)
Fixpoint format_go (tmpl : string) (field : option string)
    (args : list string) (kwargs : gmap string string) : res string :=
  match tmpl with
  | EmptyString =>
      match field with
      | None => Ok ""
      | Some _ => Err ValueError
      end
  | String c rest =>
      match field with
      | None =>
          if bool_decide (c = "{"%char) then format_go rest (Some "") args kwargs
          else if bool_decide (c = "}"%char) then Err ValueError
          else r ← format_go rest None args kwargs; Ok (String c r)
      | Some name =>
          if bool_decide (c = "}"%char) then
            if bool_decide (name = "") then
              match args with
              | [] => Err IndexError
              | a :: args' => r ← format_go rest None args' kwargs; Ok (a +:+ r)
              end
            else
              match kwargs !! name with
              | None => Err KeyError
              | Some v => r ← format_go rest None args kwargs; Ok (v +:+ r)
              end
          else format_go rest (Some (name +:+ String c "")) args kwargs
      end
  end.

Definition format (tmpl : string) (args : list string)
    (kwargs : gmap string string) : res string :=
  format_go tmpl None args kwargs.

(** [s.endswith(c)] for a one-character suffix. *)
Fixpoint endswith (c : ascii) (s : string) : bool :=
  match s with
  | EmptyString => false
  | String x rest =>
      match rest with
      | EmptyString => bool_decide (x = c)
      | String _ _ => endswith c rest
      end
  end.

(** [s.startswith(prefix)]. *)
Fixpoint startswith (prefix s : string) : bool :=
  match prefix with
  | EmptyString => true
  | String c prefix' =>
      match s with
      | EmptyString => false
      | String x s' => bool_decide (x = c) && startswith prefix' s'
      end
  end.

(** [os.path.join(a, b)] of [posixpath]. *)
Definition os_path_join (a b : string) : string :=
  if startswith "/" b then b
  else if bool_decide (a = "") || endswith "/" a then a +:+ b
  else a +:+ "/" +:+ b.

(** ** Render invocation builder *)

Definition build_frames (frames : option (list Z)) : gmap string string :=
  let args : gmap string string := ∅ in
  match frames with
  | Some fs => <["frames" := "-f " +:+ str_join "," (str <$> fs)]> args
  | None => <["frames" := ""]> args
  end.

Definition build_output (path : string) : res (gmap string string) :=
  let file_extension := "png" in
  file_name_template ← format "####.{}" [file_extension] ∅;
  o ← format "-o {}" [os_path_join path file_name_template] ∅;
  Ok {["output" := o]}.

(** [args.update(d)] is [d ∪ args]: the entries of [d] win. *)
Definition build_blender (blend_file output : string)
    (frames : option (list Z)) : res string :=
  let args : gmap string string := {["blend_file" := blend_file]} in
  let args := build_frames frames ∪ args in
  out ← build_output output;
  let args := out ∪ args in
  format "blender -b {blend_file} {output} {frames}" [] args.

(** ** The timestamp pattern *)

(** The regular expression of [get_file_mod_date] is a sequence of
    one-character atoms anchored at a line start. *)
Inductive atom : Set :=
| Lit (c : ascii)
| Digit.

Definition is_digit (c : ascii) : bool :=
  let n := nat_of_ascii c in
  ((48 <=? n) && (n <=? 57))%nat.

Definition atom_matches (a : atom) (c : ascii) : bool :=
  match a with
  | Lit x => bool_decide (x = c)
  | Digit => is_digit c
  end.

Definition lits (s : string) : list atom := Lit <$> String.list_ascii_of_string s.

(** [^Modify: \d{4}-\d{2}-\d{2} \d{2}:\d{2}:\d{2}] without the anchor. *)
Definition modify_regex : list atom :=
  lits "Modify: " ++ replicate 4 Digit ++ lits "-" ++ replicate 2 Digit
  ++ lits "-" ++ replicate 2 Digit ++ lits " " ++ replicate 2 Digit
  ++ lits ":" ++ replicate 2 Digit ++ lits ":" ++ replicate 2 Digit.

(** The text matched by [re] at the start of [s], if any. *)
Fixpoint match_here (re : list atom) (s : string) : option string :=
  match re with
  | [] => Some ""
  | a :: re' =>
      match s with
      | EmptyString => None
      | String c s' =>
          if atom_matches a c then String c <$> match_here re' s' else None
      end
  end.

(** [regex.search(s)] with [re.MULTILINE]: the leftmost match among the
    positions at a line start ([bol]: the start of the text, or just
    after a newline); [None] when there is none. *)
Fixpoint search_from (bol : bool) (s : string) : option string :=
  match (if bol then match_here modify_regex s else None) with
  | Some m => Some m
  | None =>
      match s with
      | EmptyString => None
      | String c s' => search_from (bool_decide (c = "010"%char)) s'
      end
  end.

Definition regex_search (s : string) : option string := search_from true s.

(** ** External processes *)

(** What the dispatcher does to the outside world. The command of a
    [Popen] is recorded as the string handed to [shlex.split]; splitting
    it and creating the process are taken to succeed: a command whose
    quoting [shlex.split] refuses ([ValueError]) and an executable that
    cannot be started ([OSError]) are outside the model. A process
    handle is the position of its [EPopen] in the history. Console
    output ([print]) is not recorded. *)
Inductive event : Set :=
| EPopen (pid : nat) (cmd : string)
| EWait (pid : nat)
| ECommunicate (pid : nat).

#[global] Instance event_eq_dec : EqDecision event.
Proof. solve_decision. Defined.

(** The outside world answers from the history so far (the answered
    event included): the decoded standard output collected by
    [communicate], and the return code collected by [wait]. Output
    that is not UTF-8 ([UnicodeDecodeError] in [decode]) is outside the
    model. *)
Record World : Type := {
  stdout_of : list event → string;
  returncode_of : list event → Z
}.

(** A computation reads the world and the history, emits events and
    returns a value or raises; the events emitted before an exception
    are kept. *)
Definition M (A : Type) : Type := World → list event → list event * res A.

#[global] Instance M_ret : MRet M := λ A a, λ _ _, ([], Ok a).
#[global] Instance M_bind : MBind M := λ A B f m, λ w h,
  match m w h with
  | (e1, Ok a) =>
      match f a w (h ++ e1) with
      | (e2, r) => (e1 ++ e2, r)
      end
  | (e1, Err x) => (e1, Err x)
  end.

Definition lift {A} (r : res A) : M A := λ _ _, ([], r).

Definition popen (cmd : string) : M nat := λ _ h,
  let pid := length h in ([EPopen pid cmd], Ok pid).

Definition wait (pid : nat) : M Z := λ w h,
  ([EWait pid], Ok (returncode_of w (h ++ [EWait pid]))).

Definition communicate (pid : nat) : M string := λ w h,
  ([ECommunicate pid], Ok (stdout_of w (h ++ [ECommunicate pid]))).

Fixpoint for_each {A B} (f : A → M B) (l : list A) : M (list B) :=
  match l with
  | [] => mret []
  | x :: l' => y ← f x; ys ← for_each f l'; mret (y :: ys)
  end.

(** The double quote character, and the two templates of the source
    that contain it. *)
Definition dquote : string := String "034"%char "".

(** ['ssh {} "{}"'] *)
Definition ssh_template : string :=
  Eval vm_compute in "ssh {} " +:+ dquote +:+ "{}" +:+ dquote.

(** ['scp -r "{}:{}/*" ./{}'] *)
Definition scp_r_template : string :=
  Eval vm_compute in "scp -r " +:+ dquote +:+ "{}:{}/*" +:+ dquote +:+ " ./{}".

Definition shell (cmd_str : string) : M unit :=
  p ← popen cmd_str;
  _ ← wait p;
  mret ().

Definition blender (blend_file output : string) (frames : option (list Z))
    : M nat :=
  cmd ← lift (build_blender blend_file output frames);
  popen cmd.

Definition copy_to_host (blend_file host : string) : M unit :=
  cmd ← lift (format "scp -p {} {}:" [blend_file; host] ∅);
  shell cmd.

Definition copy_results_from_host (host output : string) : M unit :=
  cmd ← lift (format scp_r_template [host; output; output] ∅);
  shell cmd.

Definition cleanup_host (host blend_file output : string) : M unit :=
  cmd ← lift (format "ssh {} rm -r {}" [host; output] ∅);
  shell cmd.

Definition get_file_mod_date (file_name host : string) : M string :=
  cmd ← lift (format "stat {}" [file_name] ∅);
  cmd ← (if bool_decide (host ≠ "localhost")
         then lift (format ssh_template [host; cmd] ∅)
         else mret cmd);
  p ← popen cmd;
  std_out ← communicate p;
  match regex_search std_out with
  | Some m => mret m
  | None => lift (Err TypeError)
  end.

Definition remote_blender (host blend_file output : string)
    (frames : option (list Z)) : M nat :=
  remote_date ← get_file_mod_date blend_file host;
  local_date ← get_file_mod_date blend_file "localhost";
  _ ← (if bool_decide (remote_date ≠ local_date)
       then copy_to_host blend_file host
       else mret ());
  blend_cmd ← lift (build_blender blend_file output frames);
  cmd ← lift (format ssh_template [host; blend_cmd] ∅);
  popen cmd.

(** ** The dispatcher: [BlenderRender._run] *)

(** [list(range(start, stop, step))]: the length is computed as CPython
    does, the [i]-th item is [start + i * step]; a zero step raises. *)
Definition range_length (start stop step : Z) : Z :=
  if bool_decide (0 < step) then
    if bool_decide (start < stop) then (stop - start - 1) / step + 1 else 0
  else
    if bool_decide (stop < start) then (start - stop - 1) / (- step) + 1 else 0.

Definition range (start stop step : Z) : res (list Z) :=
  if bool_decide (step = 0) then Err ValueError
  else Ok ((λ i : nat, start + Z.of_nat i * step)
             <$> seq 0 (Z.to_nat (range_length start stop step))).

(** The parsed command line. [-n] and [-e] have no default and are
    [None] when absent. The blend file and [-o] are taken as given: a
    command line without [-o], for which [os.path.join] raises
    [TypeError] on [None], is outside the model. *)
Record Args : Type := {
  blend_file : string;
  output : string;
  num_frames : option Z;
  start_frame : Z;
  end_frame : option Z;
  distribute : list string;
  jump : Z
}.

(** [if args.end_frame:] holds for an integer other than zero. *)
Definition truthy (x : option Z) : bool :=
  match x with
  | Some v => bool_decide (v ≠ 0)
  | None => false
  end.

(** Lines 356-360: the frames to render. Comparing or adding to [None]
    raises [TypeError]. *)
Definition frames_of (args : Args) : res (list Z) :=
  end_frame ← (if truthy (end_frame args) then
                 match num_frames args, end_frame args with
                 | Some n, Some e => Ok (Z.min n e)
                 | _, _ => Err TypeError
                 end
               else
                 match num_frames args with
                 | Some n => Ok n
                 | None => Err TypeError
                 end);
  range (start_frame args) (end_frame + 1) (jump args).

(** [frames_per_host[host]]. *)
Definition getitem {V} (d : gmap string V) (k : string) : res V :=
  match d !! k with
  | Some v => Ok v
  | None => Err KeyError
  end.

(** The body of the first loop of [_run]: one launch. *)
Definition launch (args : Args) (frames_per_host : gmap string (list Z))
    (host : string) : M nat :=
  _frames ← lift (getitem frames_per_host host);
  if bool_decide (host = "localhost") then
    blender (blend_file args) (output args) (Some _frames)
  else
    remote_blender host (blend_file args) (output args) (Some _frames).

(** The body of the third loop of [_run]. *)
Definition retrieve (args : Args) (host : string) : M unit :=
  if bool_decide (host ≠ "localhost") then
    _ ← copy_results_from_host host (output args);
    cleanup_host host (blend_file args) (output args)
  else mret ().

Definition _run (args : Args) : M unit :=
  frames ← lift (frames_of args);
  frames_per_host ← lift (split_frames_per_host frames (distribute args));
  processes ← for_each (launch args frames_per_host) (distribute args);
  _ ← for_each wait processes;
  _ ← for_each (retrieve args) (distribute args);
  mret ().

(** A world in which every [stat] prints the same timestamp and every
    process returns 0. *)
Definition quiet_world : World := {|
  stdout_of := λ _, "Modify: 2020-01-02 03:04:05.000000000 +0000";
  returncode_of := λ _, 0
|}.

(** A world in which no [stat] prints anything. *)
Definition silent_world : World := {|
  stdout_of := λ _, "";
  returncode_of := λ _, 1
|}.

(** A world in which the first query (the remote one) prints an older
    timestamp than the later ones. *)
Definition stale_world : World := {|
  stdout_of := λ h,
    if bool_decide (length h ≤ 2)%nat
    then "Modify: 2019-12-31 23:59:59.000000000 +0000"
    else "Modify: 2020-01-02 03:04:05.000000000 +0000";
  returncode_of := λ _, 0
|}.

Definition demo_args (hosts : list string) (s e : Z) : Args := {|
  blend_file := "a.blend"; output := "out"; num_frames := Some 10;
  start_frame := s; end_frame := Some e; distribute := hosts; jump := 1
|}.

(** ** The interpolation tool: [InterpolateTool.run] *)

(** [l[i]] for a list: a negative index counts from the end, an index
    out of range raises [IndexError]. *)
Definition list_getitem {A} (l : list A) (i : Z) : res A :=
  let n := Z.of_nat (length l) in
  let j := if bool_decide (i < 0) then i + n else i in
  if bool_decide (0 ≤ j < n) then
    match l !! Z.to_nat j with
    | Some x => Ok x
    | None => Err IndexError
    end
  else Err IndexError.

(** [l[start::2] = vals] for a list and [start ≥ 0]: the positions
    [start], [start + 2], ... below the length are assigned the items of
    [vals] in order; a [vals] of another size than the slice raises
    [ValueError]. *)
Definition setitem_slice {A} (l : list A) (start : Z) (vals : list A)
    : res (list A) :=
  indices ← range start (Z.of_nat (length l)) 2;
  if bool_decide (length vals ≠ length indices) then Err ValueError
  else Ok (fold_left (λ acc iv, <[Z.to_nat iv.1 := iv.2]> acc)
                     (zip indices vals) l).

Section Interpolate.
Context {Img : Type}.

(** The two routines of [common_ops] the tool chooses between and the
    pool helper of [core]: their code is not part of these sources, they
    are parameters of the model. A routine receives one group. *)
Context (interpolate_flow blend : Img * Img → Img).
Context (parallelize : (Img * Img → Img) → list (Img * Img) → list Img).

(** The [while curr < end] loop, [fuel] iterations at most ([None] when
    they do not suffice). *)
Fixpoint group_loop (fuel : nat) (images : list Img) (curr end_ : Z)
    (groups : list (Img * Img)) : option (res (list (Img * Img))) :=
  if bool_decide (curr < end_) then
    match fuel with
    | O => None
    | S fuel' =>
        match list_getitem images curr with
        | Err e => Some (Err e)
        | Ok frame1 =>
            match list_getitem images (curr + 1) with
            | Err e => Some (Err e)
            | Ok frame3 =>
                group_loop fuel' images (curr + 1) end_
                           (groups ++ [(frame1, frame3)])
            end
        end
    end
  else Some (Ok groups).

Definition InterpolateTool_run (fuel : nat) (mode : string)
    (images : list Img) : option (res (list Img)) :=
  match (if bool_decide (mode = "flow") then Ok interpolate_flow
         else if bool_decide (mode = "blend") then Ok blend
         else Err ValueError) with
  | Err e => Some (Err e)
  | Ok interp_func =>
      let curr := 0 in
      let end_ := Z.of_nat (length images) - 1 in
      match group_loop fuel images curr end_ [] with
      | None => None
      | Some (Err e) => Some (Err e)
      | Some (Ok groups) =>
          let interp_frames := parallelize interp_func groups in
          let all_frames := interp_frames ++ images in
          Some (all_frames ← setitem_slice all_frames 0 images;
                all_frames ← setitem_slice all_frames 1 interp_frames;
                Ok all_frames)
      end
  end.

End Interpolate.

(** ** Notions used in the statements *)

(** The length of the [i]-th chunk when [n] items go to [k] hosts. *)
Definition chunk_size (n k : Z) (i : nat) : Z :=
  n / k + (if bool_decide (Z.of_nat i < n `mod` k) then 1 else 0).

(** The invariant of a host assignment [d] of [frames] to [hosts]:
    every listed host has an entry, the entries read in host order make
    up [frames], and the entries of two positions of the host list
    share no frame. *)
Definition host_assignment {A} (frames : list A) (hosts : list string)
    (d : gmap string (list A)) : Prop :=
  (∀ host, host ∈ hosts → is_Some (d !! host))
  ∧ concat ((λ host, default [] (d !! host)) <$> hosts) = frames
  ∧ (∀ i j hi hj ci cj,
       i ≠ j → hosts !! i = Some hi → hosts !! j = Some hj →
       d !! hi = Some ci → d !! hj = Some cj →
       ∀ x, x ∈ ci → x ∈ cj → False).

(** The commands the dispatcher issues, written out. *)
Definition frames_flag (frames : option (list Z)) : string :=
  match frames with
  | Some fs => "-f " +:+ str_join "," (str <$> fs)
  | None => ""
  end.

Definition blender_command (blend_file output : string)
    (frames : option (list Z)) : string :=
  "blender -b " +:+ blend_file +:+ " -o " +:+ os_path_join output "####.png"
  +:+ " " +:+ frames_flag frames.

Definition ssh_command (host cmd : string) : string :=
  "ssh " +:+ host +:+ " " +:+ dquote +:+ cmd +:+ dquote.

Definition stat_command (file_name host : string) : string :=
  if bool_decide (host ≠ "localhost")
  then ssh_command host ("stat " +:+ file_name)
  else "stat " +:+ file_name.

Definition scp_p_command (blend_file host : string) : string :=
  "scp -p " +:+ blend_file +:+ " " +:+ host +:+ ":".

Definition scp_r_command (host output : string) : string :=
  "scp -r " +:+ dquote +:+ host +:+ ":" +:+ output +:+ "/*" +:+ dquote
  +:+ " ./" +:+ output.

Definition rm_command (host output : string) : string :=
  "ssh " +:+ host +:+ " rm -r " +:+ output.

(** The render command of [host]: run directly on the local machine,
    wrapped in [ssh] otherwise. *)
Definition render_command (args : Args) (fs : list Z) (host : string) : string :=
  let cmd := blender_command (blend_file args) (output args) (Some fs) in
  if bool_decide (host = "localhost") then cmd else ssh_command host cmd.

(** What follows [pre] is at a line start: [pre] is empty or ends with
    a newline. *)
Definition line_start (pre : string) : Prop :=
  pre = "" ∨ endswith "010" pre = true.

(** The position in the input of the first item of the [i]-th chunk. *)
Definition chunk_offset (n k : Z) (i : nat) : Z :=
  Z.of_nat i * (n / k) + Z.min (Z.of_nat i) (n `mod` k).

(** The events of the third loop of [_run] for one host when the
    history has [n] events, and for a list of hosts. *)
Definition retrieve_events (args : Args) (host : string) (n : nat)
    : list event :=
  if bool_decide (host ≠ "localhost") then
    [EPopen n (scp_r_command host (output args)); EWait n;
     EPopen (n + 2)%nat (rm_command host (output args)); EWait (n + 2)%nat]
  else [].

Fixpoint retrieval_trace (args : Args) (hosts : list string) (n : nat)
    : list event :=
  match hosts with
  | [] => []
  | host :: hosts' =>
      retrieve_events args host n
      ++ retrieval_trace args hosts'
           (n + length (retrieve_events args host n))%nat
  end.

(** [cmd] is a command of the sync guard for one of [hosts]. *)
Definition sync_command (args : Args) (hosts : list string) (cmd : string)
    : Prop :=
  ∃ host, host ∈ hosts ∧ host ≠ "localhost"
    ∧ (cmd = stat_command (blend_file args) host
       ∨ cmd = stat_command (blend_file args) "localhost"
       ∨ cmd = scp_p_command (blend_file args) host).

(** * Properties *)

(** ** The partitioner *)

Example slice_list_7_3 :
  slice_list [1; 2; 3; 4; 5; 6; 7] 3 = Ok [[1; 2; 3]; [4; 5]; [6; 7]].
Proof. reflexivity. Qed.

Example slice_list_10_2 :
  slice_list [1; 2; 3; 4; 5; 6; 7; 8; 9; 10] 2
  = Ok [[1; 2; 3; 4; 5]; [6; 7; 8; 9; 10]].
Proof. reflexivity. Qed.

Example slice_list_2_3 : slice_list [1; 2] 3 = Ok [[1]; [2]; []].
Proof. reflexivity. Qed.

Example slice_list_zero : slice_list [1; 2] 0 = Err ZeroDivisionError.
Proof. reflexivity. Qed.

Section PartitionerFacts.
Context {A : Type}.
Implicit Types (input it : list A) (chunks : list (list A)).

Lemma take_next_ok n it :
  (n ≤ length it)%nat → take_next n it = Ok (take n it, drop n it).
Proof.
  revert it. induction n as [|n IH]; intros [|x it] Hn; simpl in *;
    try lia; try done.
  rewrite IH by lia. done.
Qed.

(** The loop never exhausts the iterator when it starts with
    [iters * s + r] items and [r ≤ iters]; it then appends [iters]
    chunks that tile the iterator, the first [r] one item longer. *)
Lemma slice_loop_ok iters : ∀ (s r : Z) it (acc : list (list A)),
  0 ≤ s → 0 ≤ r ≤ Z.of_nat iters →
  Z.of_nat (length it) = Z.of_nat iters * s + r →
  ∃ chunks,
    slice_loop iters s r it acc = Ok (acc ++ chunks)
    ∧ length chunks = iters
    ∧ concat chunks = it
    ∧ ∀ i c, chunks !! i = Some c →
        Z.of_nat (length c) = s + (if bool_decide (Z.of_nat i < r) then 1 else 0).
Proof.
  induction iters as [|k IH]; intros s r it acc Hs Hr Hlen.
  - exists []. assert (it = []) as -> by (apply length_zero_iff_nil; lia).
    simpl. rewrite app_nil_r. repeat split; try done.
  - assert (Z.to_nat s ≤ length it)%nat as Htake by nia.
    simpl. rewrite (take_next_ok _ _ Htake). simpl.
    pose proof (take_drop (Z.to_nat s) it) as Htd.
    assert (length (take (Z.to_nat s) it) = Z.to_nat s) as Hlt
      by (rewrite length_take; lia).
    assert (Z.of_nat (length (drop (Z.to_nat s) it)) = Z.of_nat k * s + r)
      as Hld by (rewrite length_drop; nia).
    case_bool_decide as Hrem.
    + destruct (drop (Z.to_nat s) it) as [|x it2] eqn:Hdrop;
        [simpl in Hld; nia|].
      destruct (IH s (r - 1) it2
                  (acc ++ [take (Z.to_nat s) it ++ [x]])) as
        (chunks & Hrun & Hn & Hcat & Hsz);
        [lia | lia | simpl in Hld; lia |].
      exists ((take (Z.to_nat s) it ++ [x]) :: chunks).
      rewrite Hrun, <- app_assoc. simpl. repeat split; [by rewrite Hn| |].
      * rewrite Hcat, <- app_assoc. simpl. exact Htd.
      * intros [|i] c Hc; simpl in Hc.
        -- injection Hc as <-. rewrite length_app, Hlt. simpl.
           rewrite bool_decide_true by lia. lia.
        -- rewrite (Hsz i c Hc).
           repeat case_bool_decide; lia.
    + assert (r = 0) as -> by (destruct (decide (r = 0)); done).
      destruct (IH s 0 (drop (Z.to_nat s) it)
                  (acc ++ [take (Z.to_nat s) it])) as
        (chunks & Hrun & Hn & Hcat & Hsz); [lia | lia | lia |].
      exists (take (Z.to_nat s) it :: chunks).
      rewrite Hrun, <- app_assoc. simpl. repeat split; [by rewrite Hn| |].
      * by rewrite Hcat.
      * intros [|i] c Hc; simpl in Hc.
        -- injection Hc as <-. rewrite Hlt.
           rewrite bool_decide_false by lia. lia.
        -- rewrite (Hsz i c Hc). repeat case_bool_decide; lia.
Qed.

(** What [slice_list] returns for a positive size. *)
Lemma slice_list_ok input (size : Z) :
  1 ≤ size →
  ∃ chunks,
    slice_list input size = Ok chunks
    ∧ length chunks = Z.to_nat size
    ∧ concat chunks = input
    ∧ ∀ i c, chunks !! i = Some c →
        Z.of_nat (length c) = chunk_size (Z.of_nat (length input)) size i.
Proof.
  intros Hsize. unfold slice_list, chunk_size.
  rewrite bool_decide_false by lia.
  set (n := Z.of_nat (length input)).
  pose proof (Z.mod_pos_bound n size ltac:(lia)) as Hmod.
  pose proof (Z.div_mod n size ltac:(lia)) as Hdm.
  assert (0 ≤ n / size) as Hdiv by (apply Z.div_pos; lia).
  destruct (slice_loop_ok (Z.to_nat size) (n / size) (n `mod` size) input [])
    as (chunks & Hrun & Hn & Hcat & Hsz); [lia | lia | fold n; lia |].
  exists chunks. simpl in Hrun. eauto.
Qed.

End PartitionerFacts.

(** C1. Partition completeness: for a list of any length and a host
    count [K ≥ 1], [slice_list] returns [K] chunks whose concatenation,
    in host order, is the input list itself. *)
Theorem slice_list_complete {A} (input : list A) (K : Z) :
  1 ≤ K →
  ∃ chunks,
    slice_list input K = Ok chunks
    ∧ length chunks = Z.to_nat K
    ∧ concat chunks = input.
Proof.
  intros HK. destruct (slice_list_ok input K HK) as (chunks & ? & ? & ? & _).
  eauto.
Qed.

Lemma slice_list_complete_witness :
  ∃ chunks,
    slice_list [1; 2; 3; 4; 5; 6; 7] 3 = Ok chunks
    ∧ length chunks = Z.to_nat 3
    ∧ concat chunks = [1; 2; 3; 4; 5; 6; 7].
Proof. apply (slice_list_complete [1; 2; 3; 4; 5; 6; 7] 3). lia. Defined.

(** C2. Partition balance: for a list of length [N] and a host count
    [K ≥ 1], the [i]-th chunk of [slice_list] has length [N div K + 1]
    when [i < N mod K] and [N div K] otherwise, so two chunk lengths
    differ by at most one. *)
Theorem slice_list_balanced {A} (input : list A) (K : Z) :
  1 ≤ K →
  let N := Z.of_nat (length input) in
  ∃ chunks,
    slice_list input K = Ok chunks
    ∧ length chunks = Z.to_nat K
    ∧ (∀ i c, chunks !! i = Some c →
         Z.of_nat (length c)
         = if bool_decide (Z.of_nat i < N `mod` K) then N / K + 1 else N / K)
    ∧ (∀ c1 c2, c1 ∈ chunks → c2 ∈ chunks →
         Z.abs (Z.of_nat (length c1) - Z.of_nat (length c2)) ≤ 1).
Proof.
  intros HK N.
  destruct (slice_list_ok input K HK) as (chunks & Hrun & Hn & _ & Hsz).
  exists chunks. repeat split; try done.
  - intros i c Hc. rewrite (Hsz i c Hc). unfold chunk_size. fold N.
    case_bool_decide; lia.
  - intros c1 c2 [i1 H1]%list_elem_of_lookup [i2 H2]%list_elem_of_lookup.
    rewrite (Hsz i1 c1 H1), (Hsz i2 c2 H2). unfold chunk_size.
    repeat case_bool_decide; lia.
Qed.

Lemma slice_list_balanced_witness :
  let N := Z.of_nat (length [1; 2; 3; 4; 5; 6; 7]) in
  ∃ chunks,
    slice_list [1; 2; 3; 4; 5; 6; 7] 3 = Ok chunks
    ∧ length chunks = Z.to_nat 3
    ∧ (∀ i c, chunks !! i = Some c →
         Z.of_nat (length c)
         = if bool_decide (Z.of_nat i < N `mod` 3) then N / 3 + 1 else N / 3)
    ∧ (∀ c1 c2, c1 ∈ chunks → c2 ∈ chunks →
         Z.abs (Z.of_nat (length c1) - Z.of_nat (length c2)) ≤ 1).
Proof. apply (slice_list_balanced [1; 2; 3; 4; 5; 6; 7] 3). lia. Defined.

(** ** The host assignment *)

Example split_frames_7_3 :
  split_frames_per_host [1; 2; 3; 4; 5; 6; 7] ["a"; "b"; "c"]
  = Ok (<["c" := [6; 7]]> (<["b" := [4; 5]]> (<["a" := [1; 2; 3]]> ∅))).
Proof. reflexivity. Qed.

Section AssignmentFacts.
Context {V : Type}.
Implicit Types (pairs : list (string * V)) (d : gmap string V).

Lemma dict_fold_lookup_fresh pairs : ∀ d k,
  k ∉ pairs.*1 →
  fold_left (λ d kv, <[kv.1 := kv.2]> d) pairs d !! k = d !! k.
Proof.
  induction pairs as [|[k' v'] pairs IH]; intros d k Hk; simpl; [done|].
  rewrite fmap_cons, not_elem_of_cons in Hk. destruct Hk as [Hne Hk].
  rewrite IH by done. simpl in Hne. by rewrite lookup_insert_ne.
Qed.

(** With pairwise distinct keys every pair is found under its key. *)
Lemma dict_fold_lookup pairs : ∀ d k v,
  NoDup pairs.*1 → (k, v) ∈ pairs →
  fold_left (λ d kv, <[kv.1 := kv.2]> d) pairs d !! k = Some v.
Proof.
  induction pairs as [|[k' v'] pairs IH]; intros d k v Hnd Hin; simpl.
  - by apply elem_of_nil in Hin.
  - rewrite fmap_cons in Hnd. apply NoDup_cons in Hnd as [Hfresh Hnd].
    apply elem_of_cons in Hin as [[= -> ->]|Hin].
    + rewrite dict_fold_lookup_fresh by done. apply lookup_insert_eq.
    + by apply IH.
Qed.

Lemma dict_of_pairs_zip (keys : list string) (vals : list V) :
  NoDup keys → length keys = length vals →
  Forall2 (λ k v, dict_of_pairs (zip keys vals) !! k = Some v) keys vals.
Proof.
  intros Hnd Hlen. apply Forall2_same_length_lookup. split; [done|].
  intros i k v Hk Hv. apply dict_fold_lookup.
  - rewrite fst_zip by lia. done.
  - apply list_elem_of_lookup. exists i.
    rewrite lookup_zip_with, Hk. simpl. by rewrite Hv.
Qed.
End AssignmentFacts.

Lemma lookup_all_entries {A} (d : gmap string (list A)) (keys : list string)
    (vals : list (list A)) :
  Forall2 (λ k v, d !! k = Some v) keys vals →
  (λ k, default [] (d !! k)) <$> keys = vals.
Proof.
  induction 1 as [|k v ks vs Hk _ IH]; [done|].
  rewrite fmap_cons, Hk, IH. done.
Qed.

Lemma concat_NoDup_disjoint {A} (l : list (list A)) : ∀ i j a b,
  NoDup (concat l) → i ≠ j → l !! i = Some a → l !! j = Some b →
  ∀ x, x ∈ a → x ∈ b → False.
Proof.
  induction l as [|c l IH]; intros i j a b Hnd Hij Ha Hb x Hxa Hxb;
    [done|].
  simpl in Hnd. apply NoDup_app in Hnd as (_ & Hsep & Hnd).
  assert (∀ k y (e : list A), l !! k = Some e → y ∈ e → y ∈ concat l) as Hin.
  { intros k y e He Hy. apply list_elem_of_In, in_concat. exists e.
    split; apply list_elem_of_In; [|done].
    apply list_elem_of_lookup. eauto. }
  destruct i as [|i], j as [|j]; simpl in *; simplify_eq.
  - eapply Hsep; eauto.
  - eapply Hsep; eauto.
  - eapply (IH i j); eauto.
Qed.

(** The frames of a [range] are pairwise distinct. *)
Lemma range_NoDup (start stop step : Z) (frames : list Z) :
  range start stop step = Ok frames → NoDup frames.
Proof.
  unfold range. case_bool_decide as Hstep; [done|]. intros [= <-].
  apply NoDup_fmap_2; [|apply NoDup_seq].
  intros i j Hij. nia.
Qed.

(** C3, as amended. For every frame range (a list without repetition)
    and every non-empty list of pairwise distinct hosts,
    [split_frames_per_host] returns a mapping in which every listed host
    is present, whose entries in host order make up the frame range, and
    in which the entries of two hosts share no frame. *)
Theorem split_frames_per_host_assignment {A} (frames : list A)
    (hosts : list string) :
  hosts ≠ [] → NoDup hosts → NoDup frames →
  ∃ d,
    split_frames_per_host frames hosts = Ok d
    ∧ host_assignment frames hosts d.
Proof.
  intros Hne Hhosts Hframes. unfold split_frames_per_host.
  destruct (slice_list_ok frames (Z.of_nat (length hosts)))
    as (chunks & -> & Hn & Hcat & _).
  { destruct hosts; [done|]. simpl. lia. }
  rewrite Nat2Z.id in Hn. simpl.
  eexists. split; [reflexivity|].
  pose proof (dict_of_pairs_zip hosts chunks Hhosts (eq_sym Hn)) as Hall.
  set (d := dict_of_pairs (zip hosts chunks)) in *.
  split; [|split].
  - intros host [i Hi]%list_elem_of_lookup.
    destruct (Forall2_lookup_l _ _ _ _ _ Hall Hi) as (c & _ & Hc). eauto.
  - rewrite <- Hcat. f_equal. by apply lookup_all_entries.
  - intros i j hi hj ci cj Hij Hi Hj Hci Hcj.
    destruct (Forall2_lookup_l _ _ _ _ _ Hall Hi) as (ci' & Hi' & Hc1).
    destruct (Forall2_lookup_l _ _ _ _ _ Hall Hj) as (cj' & Hj' & Hc2).
    rewrite <- Hcat in Hframes. rewrite Hc1 in Hci. rewrite Hc2 in Hcj.
    injection Hci as <-. injection Hcj as <-.
    eapply concat_NoDup_disjoint; eauto.
Qed.

Lemma split_frames_per_host_assignment_witness :
  ∃ d,
    split_frames_per_host [1; 2; 3; 4; 5; 6; 7] ["a"; "b"; "c"] = Ok d
    ∧ host_assignment [1; 2; 3; 4; 5; 6; 7] ["a"; "b"; "c"] d.
Proof.
  apply (split_frames_per_host_assignment [1; 2; 3; 4; 5; 6; 7] ["a"; "b"; "c"]).
  - discriminate.
  - apply (bool_decide_unpack _). vm_compute. exact I.
  - apply (bool_decide_unpack _). vm_compute. exact I.
Defined.

(** C3, as stated, fails when a host is listed twice: the second chunk
    replaces the first under the same key, so frame 1 is in no entry of
    the mapping. *)
Lemma split_frames_per_host_duplicate_host :
  split_frames_per_host [1; 2] ["a"; "a"] = Ok {["a" := [2]]}
  ∧ (∀ host fs,
       ({["a" := [2]]} : gmap string (list Z)) !! host = Some fs → 1 ∉ fs)
  ∧ ¬ (∃ d, split_frames_per_host [1; 2] ["a"; "a"] = Ok d
            ∧ host_assignment [1; 2] ["a"; "a"] d).
Proof.
  assert (split_frames_per_host [1; 2] ["a"; "a"] = Ok {["a" := [2]]}) as Heq.
  { reflexivity. }
  split; [done|]. split.
  - intros host fs [_ <-]%lookup_singleton_Some Hin.
    apply list_elem_of_singleton in Hin. discriminate.
  - intros (d & Hd & _ & Hcat & _). rewrite Heq in Hd. injection Hd as <-.
    simpl in Hcat. rewrite lookup_singleton_eq in Hcat. discriminate.
Qed.

(** ** The command builder *)

Lemma string_app_nil_r (s : string) : s +:+ "" = s.
Proof.
  induction s as [|c s IH]; [done|].
  change (String c (s +:+ "") = String c s). by rewrite IH.
Qed.

#[global] Arguments format : simpl never.

(** Evaluates a [format] on a literal template with symbolic fields. *)
Ltac format_eq := vm_compute; repeat f_equal; try apply string_app_nil_r.

Lemma format_stat f : format "stat {}" [f] ∅ = Ok ("stat " +:+ f).
Proof. format_eq. Qed.

Lemma format_ssh host cmd :
  format ssh_template [host; cmd] ∅ = Ok (ssh_command host cmd).
Proof. format_eq. Qed.

Lemma format_scp_p f host :
  format "scp -p {} {}:" [f; host] ∅ = Ok (scp_p_command f host).
Proof. format_eq. Qed.

Lemma format_scp_r host out :
  format scp_r_template [host; out; out] ∅ = Ok (scp_r_command host out).
Proof. format_eq. Qed.

Lemma format_rm host out :
  format "ssh {} rm -r {}" [host; out] ∅ = Ok (rm_command host out).
Proof. format_eq. Qed.

Lemma format_o p : format "-o {}" [p] ∅ = Ok ("-o " +:+ p).
Proof. format_eq. Qed.

Lemma build_output_eq path :
  build_output path = Ok {["output" := "-o " +:+ os_path_join path "####.png"]}.
Proof.
  unfold build_output.
  change (format "####.{}" ["png"] ∅) with (Ok "####.png").
  cbv beta iota delta [mbind res_bind]. by rewrite format_o.
Qed.

Lemma build_blender_eq bf out frames :
  build_blender bf out frames = Ok (blender_command bf out frames).
Proof.
  unfold build_blender, blender_command. rewrite build_output_eq. simpl.
  generalize (os_path_join out "####.png"). intros p.
  destruct frames as [fs|]; unfold build_frames, frames_flag.
  - generalize (str_join "," (str <$> fs)). intros l. format_eq.
  - format_eq.
Qed.

Example build_blender_frames :
  build_blender "a.blend" "out" (Some [1; 2; 3])
  = Ok "blender -b a.blend -o out/####.png -f 1,2,3".
Proof. reflexivity. Qed.

Example build_blender_slash :
  build_blender "a.blend" "out/" None = Ok "blender -b a.blend -o out/####.png ".
Proof. reflexivity. Qed.

Example build_blender_cwd :
  build_blender "a.blend" "" None = Ok "blender -b a.blend -o ####.png ".
Proof. reflexivity. Qed.

(** C7. For every input file, output directory and optional frame
    sub-sequence the command is [blender -b <file> -o <path> <flag>].
    The path is the hard-coded name [####.png] inside the output
    directory, [<output-dir>/####.png], joined as [os.path.join] does
    (no second slash after a directory that ends with one, no slash
    after the empty string). The flag is [-f] followed by the
    comma-separated frames when a sub-sequence is supplied, and is
    absent for [None]. *)
Theorem build_blender_command (blend_file output : string) :
  build_blender blend_file output None
  = Ok ("blender -b " +:+ blend_file +:+ " -o "
        +:+ os_path_join output "####.png" +:+ " ")
  ∧ (∀ fs, build_blender blend_file output (Some fs)
           = Ok ("blender -b " +:+ blend_file +:+ " -o "
                 +:+ os_path_join output "####.png" +:+ " -f "
                 +:+ str_join "," (str <$> fs)))
  ∧ os_path_join output "####.png"
    = output
      +:+ (if bool_decide (output = "") || endswith "/" output then "" else "/")
      +:+ "####.png".
Proof.
  split; [|split].
  - rewrite build_blender_eq. reflexivity.
  - intros fs. rewrite build_blender_eq. reflexivity.
  - unfold os_path_join. simpl.
    destruct (bool_decide (output = "") || endswith "/" output); reflexivity.
Qed.

(** C10. For a frame list that is supplied but empty, [build_frames]
    emits the bare flag [-f ] with no frame number after it, which is
    not what it emits for [None] (the empty string); the command then
    ends with the bare flag. *)
Theorem build_frames_empty_list :
  build_frames (Some []) !! "frames" = Some "-f "
  ∧ build_frames None !! "frames" = Some ""
  ∧ build_frames (Some []) ≠ build_frames None
  ∧ ∀ blend_file output,
      build_blender blend_file output (Some [])
      = Ok ("blender -b " +:+ blend_file +:+ " -o "
            +:+ os_path_join output "####.png" +:+ " -f ").
Proof.
  split; [reflexivity|]. split; [reflexivity|]. split.
  - intros Heq. apply (f_equal (.!! "frames")) in Heq. discriminate Heq.
  - intros bf out. rewrite build_blender_eq. reflexivity.
Qed.

(** ** Running computations *)

Section Runs.
Context (w : World).
Implicit Types (h : list event).

Lemma run_bind {A B} (m : M A) (f : A → M B) h :
  (m ≫= f) w h
  = match m w h with
    | (e1, Ok a) => let '(e2, r) := f a w (h ++ e1) in (e1 ++ e2, r)
    | (e1, Err x) => (e1, Err x)
    end.
Proof. reflexivity. Qed.

Lemma run_bind_lift {A B} (r : res A) (f : A → M B) h :
  (lift r ≫= f) w h
  = match r with
    | Ok a => f a w h
    | Err x => ([], Err x)
    end.
Proof.
  rewrite run_bind. unfold lift. destruct r as [a|x]; [|done].
  rewrite app_nil_r. by destruct (f a w h).
Qed.

Lemma run_bind_ret {A B} (a : A) (f : A → M B) h :
  (mret a ≫= f) w h = f a w h.
Proof. apply (run_bind_lift (Ok a)). Qed.

Lemma run_bind_popen {B} cmd (f : nat → M B) h :
  (popen cmd ≫= f) w h
  = let '(e2, r) := f (length h) w (h ++ [EPopen (length h) cmd]) in
    (EPopen (length h) cmd :: e2, r).
Proof. reflexivity. Qed.

Lemma run_bind_communicate {B} pid (f : string → M B) h :
  (communicate pid ≫= f) w h
  = let '(e2, r) := f (stdout_of w (h ++ [ECommunicate pid])) w
                      (h ++ [ECommunicate pid]) in
    (ECommunicate pid :: e2, r).
Proof. reflexivity. Qed.

(** Inversion of a successful sequence. *)
Lemma run_bind_Ok {A B} (m : M A) (f : A → M B) h evs b :
  (m ≫= f) w h = (evs, Ok b) →
  ∃ e1 a e2, m w h = (e1, Ok a) ∧ f a w (h ++ e1) = (e2, Ok b)
             ∧ evs = e1 ++ e2.
Proof.
  rewrite run_bind. destruct (m w h) as [e1 [a|x]]; [|done].
  destruct (f a w (h ++ e1)) as [e2 r] eqn:Hf. intros [= <- ->].
  by exists e1, a, e2.
Qed.

Lemma for_each_cons {A B} (f : A → M B) x l h :
  for_each f (x :: l) w h
  = match f x w h with
    | (e1, Ok y) =>
        match for_each f l w (h ++ e1) with
        | (e2, Ok ys) => (e1 ++ e2, Ok (y :: ys))
        | (e2, Err e) => (e1 ++ e2, Err e)
        end
    | (e1, Err e) => (e1, Err e)
    end.
Proof.
  simpl. rewrite run_bind. destruct (f x w h) as [e1 [y|e]]; [|done].
  rewrite run_bind. destruct (for_each f l w (h ++ e1)) as [e2 [ys|e]];
    [|done].
  unfold mret, M_ret. by rewrite app_nil_r.
Qed.

(** The events of the first step are the first events of the whole. *)
Lemma run_bind_events {A B} (m : M A) (f : A → M B) h :
  ∃ e2, ((m ≫= f) w h).1 = (m w h).1 ++ e2.
Proof.
  rewrite run_bind. destruct (m w h) as [e1 [a|x]].
  - destruct (f a w (h ++ e1)) as [e2 r]. by exists e2.
  - exists []. by rewrite app_nil_r.
Qed.

Lemma for_each_events {A B} (f : A → M B) x l h :
  ∃ e2, (for_each f (x :: l) w h).1 = (f x w h).1 ++ e2.
Proof. apply run_bind_events. Qed.

Lemma shell_eq cmd h :
  shell cmd w h = ([EPopen (length h) cmd; EWait (length h)], Ok ()).
Proof. reflexivity. Qed.

Lemma blender_eq bf out frames h :
  blender bf out frames w h
  = ([EPopen (length h) (blender_command bf out frames)], Ok (length h)).
Proof.
  unfold blender. rewrite run_bind_lift, build_blender_eq. reflexivity.
Qed.

Lemma copy_to_host_eq bf host h :
  copy_to_host bf host w h
  = ([EPopen (length h) (scp_p_command bf host); EWait (length h)], Ok ()).
Proof.
  unfold copy_to_host. rewrite run_bind_lift, format_scp_p. apply shell_eq.
Qed.

Lemma copy_results_from_host_eq host out h :
  copy_results_from_host host out w h
  = ([EPopen (length h) (scp_r_command host out); EWait (length h)], Ok ()).
Proof.
  unfold copy_results_from_host. rewrite run_bind_lift, format_scp_r.
  apply shell_eq.
Qed.

Lemma cleanup_host_eq host bf out h :
  cleanup_host host bf out w h
  = ([EPopen (length h) (rm_command host out); EWait (length h)], Ok ()).
Proof.
  unfold cleanup_host. rewrite run_bind_lift, format_rm. apply shell_eq.
Qed.

(** The two events of a timestamp query, and its outcome: the matched
    text, or [TypeError] from subscripting the [None] of a failed
    search. *)
Lemma get_file_mod_date_eq file_name host h :
  let evs := [EPopen (length h) (stat_command file_name host);
              ECommunicate (length h)] in
  get_file_mod_date file_name host w h
  = (evs, match regex_search (stdout_of w (h ++ evs)) with
          | Some m => Ok m
          | None => Err TypeError
          end).
Proof.
  unfold get_file_mod_date, stat_command.
  rewrite run_bind_lift, format_stat.
  assert (∀ (cmd : string) (k : string → M string),
    ((if bool_decide (host ≠ "localhost")
      then lift (format ssh_template [host; "stat " +:+ file_name] ∅)
      else mret ("stat " +:+ file_name)) ≫= k) w h
    = k (if bool_decide (host ≠ "localhost")
         then ssh_command host ("stat " +:+ file_name)
         else "stat " +:+ file_name) w h) as Hcmd.
  { intros _ k. case_bool_decide.
    - by rewrite run_bind_lift, format_ssh.
    - by rewrite run_bind_ret. }
  rewrite (Hcmd ""). clear Hcmd.
  set (cmd := if bool_decide (host ≠ "localhost") then _ else _).
  rewrite run_bind_popen, run_bind_communicate, <- app_assoc. simpl.
  destruct (regex_search _); reflexivity.
Qed.

(** The trace of [remote_blender]: the remote query, the local query,
    the copy when the two dates differ, and the launch. *)
Lemma remote_blender_eq host bf out frames h :
  let n := length h in
  let q1 := [EPopen n (stat_command bf host); ECommunicate n] in
  let q2 := [EPopen (n + 2)%nat (stat_command bf "localhost");
             ECommunicate (n + 2)%nat] in
  remote_blender host bf out frames w h
  = match regex_search (stdout_of w (h ++ q1)) with
    | None => (q1, Err TypeError)
    | Some remote_date =>
        match regex_search (stdout_of w ((h ++ q1) ++ q2)) with
        | None => (q1 ++ q2, Err TypeError)
        | Some local_date =>
            let copy :=
              if bool_decide (remote_date ≠ local_date)
              then [EPopen (n + 4)%nat (scp_p_command bf host);
                    EWait (n + 4)%nat]
              else [] in
            let pid := (n + 4 + length copy)%nat in
            (q1 ++ q2 ++ copy
                ++ [EPopen pid (ssh_command host (blender_command bf out frames))],
             Ok pid)
        end
    end.
Proof.
  intros n q1 q2. unfold remote_blender.
  rewrite run_bind, get_file_mod_date_eq. fold n q1.
  destruct (regex_search (stdout_of w (h ++ q1))) as [remote_date|];
    [|done].
  assert (length (h ++ q1) = (n + 2)%nat) as Hlen1
    by (rewrite length_app; simpl; lia).
  rewrite run_bind, get_file_mod_date_eq, Hlen1. fold q2.
  destruct (regex_search (stdout_of w ((h ++ q1) ++ q2))) as [local_date|];
    [|done].
  assert (length ((h ++ q1) ++ q2) = (n + 4)%nat) as Hlen2
    by (rewrite !length_app; simpl; lia).
  case_bool_decide as Hdates.
  - rewrite run_bind, copy_to_host_eq, Hlen2.
    rewrite run_bind_lift, build_blender_eq, run_bind_lift, format_ssh.
    unfold popen. rewrite length_app, Hlen2. simpl.
    repeat f_equal; lia.
  - rewrite run_bind_ret.
    rewrite run_bind_lift, build_blender_eq, run_bind_lift, format_ssh.
    unfold popen. rewrite Hlen2. simpl.
    by rewrite Nat.add_0_r.
Qed.
End Runs.

(** ** The timestamp query *)

Example regex_search_stat :
  regex_search "  File: a.blend
  Size: 4096
Modify: 2020-01-02 03:04:05.000000000 +0000
Change: 2020-01-02 03:04:05.000000000 +0000"
  = Some "Modify: 2020-01-02 03:04:05".
Proof. reflexivity. Qed.

Example regex_search_not_at_line_start :
  regex_search " Modify: 2020-01-02 03:04:05" = None.
Proof. reflexivity. Qed.

(** C5, as amended. When the decoded output of the query command has no
    line that starts with [Modify: YYYY-MM-DD HH:MM:SS],
    [get_file_mod_date] raises (it returns no value), and the exception
    is the [TypeError] of subscripting the [None] that the search
    returned. *)
Theorem get_file_mod_date_no_match (w : World) (file_name host : string)
    (h : list event) :
  let evs := [EPopen (length h) (stat_command file_name host);
              ECommunicate (length h)] in
  regex_search (stdout_of w (h ++ evs)) = None →
  get_file_mod_date file_name host w h = (evs, Err TypeError).
Proof.
  intros evs Hnone. rewrite get_file_mod_date_eq. fold evs. by rewrite Hnone.
Qed.

Lemma get_file_mod_date_no_match_witness :
  get_file_mod_date "a.blend" "w1" silent_world []
  = ([EPopen 0 (stat_command "a.blend" "w1"); ECommunicate 0], Err TypeError).
Proof.
  apply (get_file_mod_date_no_match silent_world "a.blend" "w1" []).
  reflexivity.
Defined.

(** C5, as stated, fails: on an empty output the query raises
    [TypeError], not [ParseError]. *)
Lemma get_file_mod_date_not_ParseError :
  regex_search (stdout_of silent_world []) = None
  ∧ (get_file_mod_date "a.blend" "w1" silent_world []).2 = Err TypeError
  ∧ (get_file_mod_date "a.blend" "w1" silent_world []).2 ≠ Err ParseError.
Proof. split; [reflexivity|]. split; [reflexivity|]. discriminate. Qed.

(** ** The sync guard *)

Lemma stat_command_not_scp file_name host :
  startswith "scp" (stat_command file_name host) = false.
Proof. unfold stat_command. case_bool_decide; reflexivity. Qed.

(** C6. When [remote_blender] has obtained the remote and the local
    timestamp, it issues the copy of the input file to the host if and
    only if the two strings are unequal; when they are equal no [scp]
    command at all is issued. *)
Theorem remote_blender_sync_skip (w : World) (host bf out : string)
    (frames : option (list Z)) (h e1 e2 : list event)
    (remote_date local_date : string) :
  get_file_mod_date bf host w h = (e1, Ok remote_date) →
  get_file_mod_date bf "localhost" w (h ++ e1) = (e2, Ok local_date) →
  let tr := (remote_blender host bf out frames w h).1 in
  ((∃ pid, EPopen pid (scp_p_command bf host) ∈ tr)
   ↔ remote_date ≠ local_date)
  ∧ (remote_date = local_date →
     ∀ pid cmd, EPopen pid cmd ∈ tr → startswith "scp" cmd = false).
Proof.
  intros Hremote Hlocal.
  rewrite get_file_mod_date_eq in Hremote.
  destruct (regex_search _) as [d1|] eqn:Hd1 in Hremote; [|done].
  injection Hremote as <- ->.
  rewrite get_file_mod_date_eq in Hlocal.
  destruct (regex_search _) as [d2|] eqn:Hd2 in Hlocal; [|done].
  injection Hlocal as <- ->.
  rewrite length_app in Hd2. simpl in Hd2.
  rewrite remote_blender_eq. rewrite Hd1, Hd2.
  assert (remote_date = local_date →
    ∀ pid cmd,
      EPopen pid cmd ∈
        [EPopen (length h) (stat_command bf host); ECommunicate (length h);
         EPopen (length h + 2)%nat (stat_command bf "localhost");
         ECommunicate (length h + 2)%nat;
         EPopen (length h + 4 + 0)%nat
           (ssh_command host (blender_command bf out frames))] →
      startswith "scp" cmd = false) as Hnone.
  { intros _ pid cmd Hin.
    repeat (apply elem_of_cons in Hin as [Hin|Hin]);
      try (by apply elem_of_nil in Hin); simplify_eq;
      try apply stat_command_not_scp. reflexivity. }
  case_bool_decide as Hdates; simpl.
  - split; [|done]. split; [done|]. intros _. exists (length h + 4)%nat.
    set_solver.
  - split; [|by apply Hnone].
    split; [|done]. intros [pid Hin].
    apply (Hnone Hdates) in Hin. discriminate Hin.
Qed.

Lemma remote_blender_sync_skip_witness :
  let tr := (remote_blender "w1" "a.blend" "out" (Some [1; 2]) stale_world []).1 in
  ((∃ pid, EPopen pid (scp_p_command "a.blend" "w1") ∈ tr)
   ↔ "Modify: 2019-12-31 23:59:59" ≠ "Modify: 2020-01-02 03:04:05")
  ∧ ("Modify: 2019-12-31 23:59:59" = "Modify: 2020-01-02 03:04:05" →
     ∀ pid cmd, EPopen pid cmd ∈ tr → startswith "scp" cmd = false).
Proof.
  apply (remote_blender_sync_skip stale_world "w1" "a.blend" "out"
           (Some [1; 2]) []
           [EPopen 0 (stat_command "a.blend" "w1"); ECommunicate 0]
           [EPopen 2 (stat_command "a.blend" "localhost"); ECommunicate 2]);
    reflexivity.
Defined.

(** ** The dispatcher *)

Section Dispatch.
Context (w : World) (args : Args).
Implicit Types (h : list event) (d : gmap string (list Z)).

(** A successful launch emits the events of the sync guard (none for
    the local host) and then the one [Popen] of the render command,
    whose handle it returns. *)
Lemma launch_Ok d host h evs pid :
  launch args d host w h = (evs, Ok pid) →
  ∃ fs sync,
    d !! host = Some fs
    ∧ evs = sync ++ [EPopen pid (render_command args fs host)]
    ∧ pid = (length h + length sync)%nat
    ∧ (host = "localhost" → sync = [])
    ∧ (∀ p, EWait p ∈ sync → (length h ≤ p < length h + length sync)%nat)
    ∧ (∀ p cmd, EPopen p cmd ∈ sync →
         host ≠ "localhost"
         ∧ (cmd = stat_command (blend_file args) host
            ∨ cmd = stat_command (blend_file args) "localhost"
            ∨ cmd = scp_p_command (blend_file args) host)).
Proof.
  unfold launch, render_command. rewrite run_bind_lift. unfold getitem.
  destruct (d !! host) as [fs|] eqn:Hfs; [|done].
  case_bool_decide as Hhost.
  - rewrite blender_eq. intros [= <- <-]. exists fs, [].
    simpl. split_and!; try done; try lia.
    + intros p Hp. by apply elem_of_nil in Hp.
    + intros p cmd Hp. by apply elem_of_nil in Hp.
  - rewrite remote_blender_eq.
    destruct (regex_search _) as [remote_date|]; [|done].
    destruct (regex_search _) as [local_date|]; [|done].
    intros [= <- <-]. exists fs.
    case_bool_decide as Hdates.
    + eexists [_; _; _; _; _; _]. simpl.
      split_and!; try done; try lia.
      * intros p Hp. repeat (apply elem_of_cons in Hp as [Hp|Hp]);
          try (by apply elem_of_nil in Hp); simplify_eq. lia.
      * intros p cmd Hp. split; [done|].
        repeat (apply elem_of_cons in Hp as [Hp|Hp]);
          try (by apply elem_of_nil in Hp); simplify_eq; eauto.
    + eexists [_; _; _; _]. simpl.
      split_and!; try done; try lia.
      * intros p Hp. repeat (apply elem_of_cons in Hp as [Hp|Hp]);
          try (by apply elem_of_nil in Hp); simplify_eq.
      * intros p cmd Hp. split; [done|].
        repeat (apply elem_of_cons in Hp as [Hp|Hp]);
          try (by apply elem_of_nil in Hp); simplify_eq; eauto.
Qed.

(** The first loop: one handle per host, each the position of the
    [Popen] of that host's render command; the handles are distinct,
    none of them is waited on, and every other [Popen] belongs to the
    sync guard. *)
Lemma launch_loop_Ok d hosts : ∀ h evs pids,
  for_each (launch args d) hosts w h = (evs, Ok pids) →
  Forall2 (λ host pid, ∃ fs,
             d !! host = Some fs
             ∧ (h ++ evs) !! pid
               = Some (EPopen pid (render_command args fs host)))
          hosts pids
  ∧ Forall (λ pid, (length h ≤ pid < length h + length evs)%nat) pids
  ∧ NoDup pids
  ∧ (∀ p, EWait p ∈ evs →
       (p ∉ pids) ∧ (length h ≤ p < length h + length evs)%nat)
  ∧ (∀ p cmd, EPopen p cmd ∈ evs → p ∈ pids ∨ sync_command args hosts cmd).
Proof.
  induction hosts as [|host hosts IH]; intros h evs pids Hrun.
  - injection Hrun as <- <-. split_and!; try by constructor.
    + intros p Hp. by apply elem_of_nil in Hp.
    + intros p cmd Hp. by apply elem_of_nil in Hp.
  - rewrite for_each_cons in Hrun.
    destruct (launch args d host w h) as [e1 [pid|]] eqn:Hlaunch; [|done].
    destruct (for_each (launch args d) hosts w (h ++ e1))
      as [e3 [ys|]] eqn:Hloop; [|done].
    injection Hrun as <- <-.
    apply launch_Ok in Hlaunch
      as (fs & sync & Hfs & -> & Hpid & _ & Hwait & Hsync).
    apply IH in Hloop as (Hall & Hrange & Hnd & Hwaits & Hpopens).
    rewrite !length_app in *. simpl in *.
    assert (Forall (λ y, (pid < y)%nat) ys) as Hlt.
    { eapply Forall_impl; [exact Hrange|]. simpl. intros y Hy. lia. }
    split_and!.
    + constructor.
      * exists fs. split; [done|].
        replace (h ++ (sync ++ [EPopen pid (render_command args fs host)]) ++ e3)
          with ((h ++ sync) ++ EPopen pid (render_command args fs host) :: e3)
          by (by rewrite <- !app_assoc).
        rewrite Hpid, <- length_app. apply list_lookup_middle. done.
      * eapply Forall2_impl; [exact Hall|]. simpl.
        intros host' y (fs' & Hfs' & Hy). exists fs'. split; [done|].
        by rewrite app_assoc.
    + constructor; [lia|].
      eapply Forall_impl; [exact Hrange|]. simpl. intros y Hy. lia.
    + constructor; [|done]. intros Hin.
      rewrite Forall_forall in Hlt. apply Hlt in Hin. lia.
    + intros p Hp. apply elem_of_app in Hp as [Hp|Hp].
      * apply elem_of_app in Hp as [Hp|Hp].
        -- apply Hwait in Hp. split; [|lia].
           intros [->|Hin]%elem_of_cons; [lia|].
           rewrite Forall_forall in Hlt. apply Hlt in Hin. lia.
        -- apply list_elem_of_singleton in Hp. done.
      * apply Hwaits in Hp as [Hp ?]. split; [|lia].
        intros [->|Hin]%elem_of_cons; [lia|done].
    + intros p cmd Hp. apply elem_of_app in Hp as [Hp|Hp].
      * apply elem_of_app in Hp as [Hp|Hp].
        -- right. apply Hsync in Hp as [Hne Hcmd].
           exists host. split; [left|done].
        -- apply list_elem_of_singleton in Hp. injection Hp as -> ->.
           left. left.
      * apply Hpopens in Hp as [Hp|(host' & Hin & Hrest)].
        -- left. by right.
        -- right. exists host'. split; [by right|done].
Qed.

(** The second loop waits on the handles one after the other. *)
Lemma wait_loop_eq pids : ∀ h,
  ∃ codes, for_each wait pids w h = (EWait <$> pids, Ok codes).
Proof.
  induction pids as [|pid pids IH]; intros h; [by exists []|].
  destruct (IH (h ++ [EWait pid])) as [codes Hcodes].
  exists (returncode_of w (h ++ [EWait pid]) :: codes).
  rewrite for_each_cons. unfold wait at 1. by rewrite Hcodes.
Qed.

Lemma retrieve_eq host h :
  retrieve args host w h = (retrieve_events args host (length h), Ok ()).
Proof.
  unfold retrieve, retrieve_events. case_bool_decide; [|done].
  rewrite run_bind, copy_results_from_host_eq, cleanup_host_eq.
  rewrite length_app. simpl. done.
Qed.

(** The third loop. *)
Lemma retrieve_loop_eq hosts : ∀ h,
  ∃ units,
    for_each (retrieve args) hosts w h
    = (retrieval_trace args hosts (length h), Ok units).
Proof.
  induction hosts as [|host hosts IH]; intros h; [by exists []|].
  destruct (IH (h ++ retrieve_events args host (length h))) as [us Hus].
  exists (() :: us). rewrite for_each_cons, retrieve_eq, Hus, length_app.
  done.
Qed.

(** A successful run is a launch phase, the waits on its handles and
    the retrieval. *)
Lemma run_Ok h tr :
  _run args w h = (tr, Ok ()) →
  ∃ frames d pre pids,
    frames_of args = Ok frames
    ∧ split_frames_per_host frames (distribute args) = Ok d
    ∧ for_each (launch args d) (distribute args) w h = (pre, Ok pids)
    ∧ tr = pre ++ (EWait <$> pids)
           ++ retrieval_trace args (distribute args)
                (length h + length pre + length pids)%nat.
Proof.
  unfold _run. rewrite run_bind_lift.
  destruct (frames_of args) as [frames|]; [|done].
  rewrite run_bind_lift.
  destruct (split_frames_per_host frames (distribute args)) as [d|] eqn:Hd;
    [|done].
  intros Hrun.
  apply run_bind_Ok in Hrun as (pre & pids & e2 & Hlaunch & Hrest & ->).
  exists frames, d, pre, pids. split_and!; [done..|].
  rewrite run_bind in Hrest.
  destruct (wait_loop_eq pids (h ++ pre)) as [codes Hcodes].
  rewrite Hcodes, run_bind in Hrest.
  destruct (retrieve_loop_eq (distribute args)
              ((h ++ pre) ++ (EWait <$> pids))) as [us Hus].
  rewrite Hus in Hrest. injection Hrest as <-.
  rewrite !length_app, length_fmap, app_nil_r. done.
Qed.
End Dispatch.

Example run_two_hosts :
  _run (demo_args ["localhost"; "w1"] 1 7) quiet_world []
  = ([EPopen 0 "blender -b a.blend -o out/####.png -f 1,2,3,4";
      EPopen 1 (stat_command "a.blend" "w1"); ECommunicate 1;
      EPopen 3 "stat a.blend"; ECommunicate 3;
      EPopen 5 (ssh_command "w1" "blender -b a.blend -o out/####.png -f 5,6,7");
      EWait 0; EWait 5;
      EPopen 8 (scp_r_command "w1" "out"); EWait 8;
      EPopen 10 "ssh w1 rm -r out"; EWait 10],
     Ok ()).
Proof. reflexivity. Qed.

(** C8. In a run that completes, the trace is a launch phase, then the
    waits on the handles in order, then the retrieval. The launch phase
    yields one handle per listed host (also for a host whose
    sub-sequence is empty), each the [Popen] of that host's render
    command: the bare command for [localhost], the command wrapped in
    [ssh] otherwise. The handles are pairwise distinct, every other
    process of the launch phase belongs to the sync guard, and the
    launch phase waits on none of the handles. *)
Theorem run_launches_then_waits (w : World) (args : Args)
    (h tr : list event) :
  _run args w h = (tr, Ok ()) →
  ∃ frames d pre pids post,
    frames_of args = Ok frames
    ∧ split_frames_per_host frames (distribute args) = Ok d
    ∧ tr = pre ++ (EWait <$> pids) ++ post
    ∧ Forall2 (λ host pid, ∃ fs,
                 d !! host = Some fs
                 ∧ (h ++ pre) !! pid
                   = Some (EPopen pid (render_command args fs host)))
              (distribute args) pids
    ∧ NoDup pids
    ∧ (∀ pid cmd, EPopen pid cmd ∈ pre →
         pid ∈ pids ∨ sync_command args (distribute args) cmd)
    ∧ (∀ pid, pid ∈ pids → EWait pid ∉ pre).
Proof.
  intros Hrun.
  apply run_Ok in Hrun as (frames & d & pre & pids & Hf & Hd & Hlaunch & ->).
  apply launch_loop_Ok in Hlaunch as (Hall & _ & Hnd & Hwaits & Hpopens).
  exists frames, d, pre, pids. eexists. split_and!; try done.
  intros pid Hpid Hin. apply Hwaits in Hin as [Hin _]. done.
Qed.

Lemma run_launches_then_waits_witness :
  let args := demo_args ["localhost"; "w1"; "w2"] 1 2 in
  let tr := (_run args quiet_world []).1 in
  ∃ frames d pre pids post,
    frames_of args = Ok frames
    ∧ split_frames_per_host frames (distribute args) = Ok d
    ∧ tr = pre ++ (EWait <$> pids) ++ post
    ∧ Forall2 (λ host pid, ∃ fs,
                 d !! host = Some fs
                 ∧ ([] ++ pre) !! pid
                   = Some (EPopen pid (render_command args fs host)))
              (distribute args) pids
    ∧ NoDup pids
    ∧ (∀ pid cmd, EPopen pid cmd ∈ pre →
         pid ∈ pids ∨ sync_command args (distribute args) cmd)
    ∧ (∀ pid, pid ∈ pids → EWait pid ∉ pre).
Proof.
  apply (run_launches_then_waits quiet_world
           (demo_args ["localhost"; "w1"; "w2"] 1 2) []).
  reflexivity.
Defined.

(** ** Retrieval and cleanup *)

Lemma retrieval_trace_host (args : Args) (hosts : list string) : ∀ n host,
  host ∈ hosts → host ≠ "localhost" →
  ∃ l1 l2 m,
    retrieval_trace args hosts n
    = l1 ++ [EPopen m (scp_r_command host (output args)); EWait m;
             EPopen (m + 2)%nat (rm_command host (output args));
             EWait (m + 2)%nat] ++ l2.
Proof.
  induction hosts as [|host' hosts IH]; intros n host Hin Hne.
  - by apply elem_of_nil in Hin.
  - apply elem_of_cons in Hin as [->|Hin].
    + exists [], (retrieval_trace args hosts (n + 4)%nat), n. simpl.
      unfold retrieve_events. rewrite bool_decide_true by done. done.
    + destruct (IH (n + length (retrieve_events args host' n))%nat host Hin Hne)
        as (l1 & l2 & m & Heq).
      exists (retrieve_events args host' n ++ l1), l2, m. simpl.
      by rewrite Heq, <- app_assoc.
Qed.

Lemma retrieval_trace_popen (args : Args) (hosts : list string) :
  ∀ n pid cmd,
  EPopen pid cmd ∈ retrieval_trace args hosts n →
  ∃ host, host ∈ hosts ∧ host ≠ "localhost"
    ∧ (cmd = scp_r_command host (output args)
       ∨ cmd = rm_command host (output args)).
Proof.
  induction hosts as [|host hosts IH]; intros n pid cmd Hin; simpl in Hin.
  - by apply elem_of_nil in Hin.
  - apply elem_of_app in Hin as [Hin|Hin].
    + unfold retrieve_events in Hin. case_bool_decide as Hne.
      * exists host. split; [left|]. split; [done|].
        repeat (apply elem_of_cons in Hin as [Hin|Hin]);
          try (by apply elem_of_nil in Hin); simplify_eq; eauto.
      * by apply elem_of_nil in Hin.
    + apply IH in Hin as (host' & Hin & Hrest). exists host'.
      split; [by right|done].
Qed.

Lemma for_each_ext {A B} (f : A → M B) (w w' : World) (l : list A) :
  (∀ x h, f x w h = f x w' h) →
  ∀ h, for_each f l w h = for_each f l w' h.
Proof.
  intros Hf. induction l as [|x l IH]; intros h; [done|].
  rewrite !for_each_cons, Hf. destruct (f x w' h) as [e1 [y|e]]; [|done].
  by rewrite IH.
Qed.

Lemma launch_ext (w w' : World) (args : Args) (d : gmap string (list Z))
    (host : string) (h : list event) :
  stdout_of w = stdout_of w' →
  launch args d host w h = launch args d host w' h.
Proof.
  intros Hout. unfold launch. rewrite !run_bind_lift.
  destruct (getitem d host) as [fs|]; [|done].
  case_bool_decide.
  - by rewrite !blender_eq.
  - by rewrite !remote_blender_eq, Hout.
Qed.

(** The run does not look at the return codes of its processes. *)
Lemma run_ignores_returncodes (w w' : World) (args : Args) (h : list event) :
  stdout_of w = stdout_of w' → _run args w h = _run args w' h.
Proof.
  intros Hout. unfold _run. rewrite !run_bind_lift.
  destruct (frames_of args) as [frames|]; [|done].
  rewrite !run_bind_lift.
  destruct (split_frames_per_host frames (distribute args)) as [d|]; [|done].
  rewrite !run_bind.
  rewrite (for_each_ext _ w w') by (intros; by apply launch_ext).
  destruct (for_each (launch args d) (distribute args) w' h)
    as [pre [pids|]]; [|done].
  rewrite !run_bind.
  destruct (wait_loop_eq w pids (h ++ pre)) as [codes ->].
  destruct (wait_loop_eq w' pids (h ++ pre)) as [codes' ->].
  rewrite !run_bind.
  destruct (retrieve_loop_eq w args (distribute args)
              ((h ++ pre) ++ (EWait <$> pids))) as [us ->].
  destruct (retrieve_loop_eq w' args (distribute args)
              ((h ++ pre) ++ (EWait <$> pids))) as [us' ->].
  done.
Qed.

(** C9. In a run that completes, what follows the waits on the render
    handles is, for every listed host other than [localhost], the
    recursive copy of its output directory and then the delete of that
    directory, and nothing for [localhost]: every command of that phase
    is the copy or the delete of a non-local host. The delete does not
    depend on the copy: the run is the same whatever return codes the
    processes report. *)
Theorem run_retrieval_then_cleanup (w : World) (args : Args)
    (h tr : list event) :
  _run args w h = (tr, Ok ()) →
  ∃ frames d pre pids post,
    split_frames_per_host frames (distribute args) = Ok d
    ∧ for_each (launch args d) (distribute args) w h = (pre, Ok pids)
    ∧ tr = pre ++ (EWait <$> pids) ++ post
    ∧ post = retrieval_trace args (distribute args)
               (length h + length pre + length pids)%nat
    ∧ (∀ host, host ∈ distribute args → host ≠ "localhost" →
         ∃ l1 l2 n,
           post = l1 ++ [EPopen n (scp_r_command host (output args));
                         EWait n;
                         EPopen (n + 2)%nat (rm_command host (output args));
                         EWait (n + 2)%nat] ++ l2)
    ∧ (∀ pid cmd, EPopen pid cmd ∈ post →
         ∃ host, host ∈ distribute args ∧ host ≠ "localhost"
           ∧ (cmd = scp_r_command host (output args)
              ∨ cmd = rm_command host (output args)))
    ∧ (∀ returncodes,
         _run args {| stdout_of := stdout_of w; returncode_of := returncodes |} h
         = (tr, Ok ())).
Proof.
  intros Hrun. pose proof Hrun as Hrun'.
  apply run_Ok in Hrun as (frames & d & pre & pids & Hf & Hd & Hlaunch & ->).
  exists frames, d, pre, pids. eexists. split_and!; try done.
  - intros host Hin Hne. by apply retrieval_trace_host.
  - intros pid cmd Hin. by eapply retrieval_trace_popen.
  - intros rc. rewrite <- Hrun'. symmetry. by apply run_ignores_returncodes.
Qed.

(** A world in which every copy and every other process fails. *)
Lemma run_retrieval_then_cleanup_witness :
  let args := demo_args ["localhost"; "w1"] 1 7 in
  let w := {| stdout_of := stdout_of quiet_world; returncode_of := λ _, 1 |} in
  let tr := (_run args w []).1 in
  ∃ frames d pre pids post,
    split_frames_per_host frames (distribute args) = Ok d
    ∧ for_each (launch args d) (distribute args) w [] = (pre, Ok pids)
    ∧ tr = pre ++ (EWait <$> pids) ++ post
    ∧ post = retrieval_trace args (distribute args)
               (length (@nil event) + length pre + length pids)%nat
    ∧ (∀ host, host ∈ distribute args → host ≠ "localhost" →
         ∃ l1 l2 n,
           post = l1 ++ [EPopen n (scp_r_command host (output args));
                         EWait n;
                         EPopen (n + 2)%nat (rm_command host (output args));
                         EWait (n + 2)%nat] ++ l2)
    ∧ (∀ pid cmd, EPopen pid cmd ∈ post →
         ∃ host, host ∈ distribute args ∧ host ≠ "localhost"
           ∧ (cmd = scp_r_command host (output args)
              ∨ cmd = rm_command host (output args)))
    ∧ (∀ returncodes,
         _run args {| stdout_of := stdout_of w; returncode_of := returncodes |} []
         = (tr, Ok ())).
Proof.
  apply (run_retrieval_then_cleanup
           {| stdout_of := stdout_of quiet_world; returncode_of := λ _, 1 |}
           (demo_args ["localhost"; "w1"] 1 7) []).
  reflexivity.
Defined.

(** ** Zero hosts and empty frame ranges *)

Example frames_of_end_before_start :
  frames_of (demo_args ["localhost"] 5 2) = Ok [].
Proof. reflexivity. Qed.

Lemma range_empty (start stop step : Z) :
  0 < step → stop ≤ start → range start stop step = Ok [].
Proof.
  intros Hstep Hstop. unfold range, range_length.
  rewrite bool_decide_false by lia. rewrite bool_decide_true by lia.
  rewrite bool_decide_false by lia. reflexivity.
Qed.

Lemma frames_of_Err (args : Args) (e : exn) :
  frames_of args = Err e → e = TypeError ∨ e = ValueError.
Proof.
  unfold frames_of, range.
  destruct (truthy (end_frame args)), (num_frames args), (end_frame args);
    simpl; try case_bool_decide; intros [= <-]; auto.
Qed.

(** Every key of the pairs has an entry, taken from one of its pairs. *)
Lemma dict_fold_lookup_key {V} (pairs : list (string * V)) :
  ∀ (d : gmap string V) k,
  k ∈ pairs.*1 →
  ∃ v, fold_left (λ d kv, <[kv.1 := kv.2]> d) pairs d !! k = Some v
       ∧ (k, v) ∈ pairs.
Proof.
  induction pairs as [|[k' v'] pairs IH]; intros d k Hk.
  - by apply elem_of_nil in Hk.
  - simpl. destruct (decide (k ∈ pairs.*1)) as [Hin|Hout].
    + destruct (IH (<[k':=v']> d) k Hin) as (v & Hv & Hpair).
      exists v. split; [done|by right].
    + rewrite fmap_cons in Hk. apply elem_of_cons in Hk as [->|Hk]; [|done].
      exists v'. rewrite dict_fold_lookup_fresh by done.
      split; [apply lookup_insert_eq|left].
Qed.

(** An empty frame list is partitioned without error: every listed host
    is assigned the empty sub-sequence. *)
Lemma split_frames_per_host_empty (hosts : list string) :
  hosts ≠ [] →
  ∃ d, split_frames_per_host (@nil Z) hosts = Ok d
       ∧ ∀ host, host ∈ hosts → d !! host = Some [].
Proof.
  intros Hne. unfold split_frames_per_host.
  destruct (slice_list_ok (@nil Z) (Z.of_nat (length hosts)))
    as (chunks & -> & Hn & Hcat & _).
  { destruct hosts; [done|]. simpl. lia. }
  rewrite Nat2Z.id in Hn. eexists. split; [reflexivity|].
  intros host Hin. unfold dict_of_pairs.
  destruct (dict_fold_lookup_key (zip hosts chunks) ∅ host) as (v & -> & Hv).
  { rewrite fst_zip by lia. done. }
  apply elem_of_zip_r in Hv. apply concat_nil_Forall in Hcat.
  rewrite List.Forall_forall in Hcat. f_equal. apply Hcat.
  by apply list_elem_of_In.
Qed.

(** The first thing a launch does is start a process. *)
Lemma launch_first_event (w : World) (args : Args) (d : gmap string (list Z))
    (host : string) (fs : list Z) (h : list event) :
  d !! host = Some fs →
  ∃ cmd evs r, launch args d host w h = (EPopen (length h) cmd :: evs, r).
Proof.
  intros Hfs. unfold launch. rewrite run_bind_lift. unfold getitem.
  rewrite Hfs. case_bool_decide.
  - rewrite blender_eq. eauto.
  - rewrite remote_blender_eq.
    destruct (regex_search _); [|simpl; eauto].
    destruct (regex_search _); simpl; eauto.
Qed.

(** C4, as amended. With zero hosts the dispatch fails before any
    process is spawned, but not with a [ConfigurationError]: when the
    frame arguments are well formed the exception is the
    [ZeroDivisionError] of the partitioner. An empty frame range is not
    rejected: every listed host is assigned the empty sub-sequence and
    the dispatch goes on to spawn a process. *)
Theorem run_zero_hosts_or_empty_range (w : World) (args : Args)
    (h : list event) :
  (distribute args = [] →
   ∃ e, _run args w h = ([], Err e)
        ∧ e ≠ ConfigurationError
        ∧ (∀ frames, frames_of args = Ok frames → e = ZeroDivisionError))
  ∧ (distribute args ≠ [] → frames_of args = Ok [] →
     ∃ d cmd evs,
       split_frames_per_host (@nil Z) (distribute args) = Ok d
       ∧ (∀ host, host ∈ distribute args → d !! host = Some [])
       ∧ (_run args w h).1 = EPopen (length h) cmd :: evs).
Proof.
  split.
  - intros Hhosts. unfold _run. rewrite run_bind_lift.
    destruct (frames_of args) as [frames|e] eqn:Hframes.
    + rewrite run_bind_lift, Hhosts. exists ZeroDivisionError.
      split; [reflexivity|]. split; [discriminate|done].
    + exists e. split; [done|]. split; [|done].
      apply frames_of_Err in Hframes as [-> | ->]; discriminate.
  - intros Hhosts Hframes.
    destruct (split_frames_per_host_empty (distribute args) Hhosts)
      as (d & Hd & Hall).
    assert (∃ cmd evs, (_run args w h).1 = EPopen (length h) cmd :: evs)
      as (cmd & evs & Hfirst); [|by exists d, cmd, evs].
    unfold _run. rewrite run_bind_lift, Hframes, run_bind_lift, Hd.
    destruct (distribute args) as [|host hosts] eqn:Hdist; [done|].
    destruct (launch_first_event w args d host [] h) as (cmd & evs & r & Hl).
    { apply Hall. left. }
    destruct (run_bind_events w (for_each (launch args d) (host :: hosts))
                (λ processes, _ ← for_each wait processes;
                              _ ← for_each (retrieve args) (host :: hosts);
                              mret ()) h) as [e2 He2].
    destruct (for_each_events w (launch args d) host hosts h) as [e3 He3].
    rewrite He3, Hl in He2. exists cmd, (evs ++ e3 ++ e2).
    etrans; [exact He2|]. simpl. by rewrite <- app_assoc.
Qed.

Lemma run_zero_hosts_or_empty_range_witness :
  (∃ e, _run (demo_args [] 1 7) quiet_world [] = ([], Err e)
        ∧ e ≠ ConfigurationError
        ∧ (∀ frames, frames_of (demo_args [] 1 7) = Ok frames →
             e = ZeroDivisionError))
  ∧ (∃ d cmd evs,
       split_frames_per_host (@nil Z) ["localhost"; "w1"] = Ok d
       ∧ (∀ host, host ∈ ["localhost"; "w1"] → d !! host = Some [])
       ∧ (_run (demo_args ["localhost"; "w1"] 5 2) quiet_world []).1
         = EPopen 0 cmd :: evs).
Proof.
  split.
  - apply (run_zero_hosts_or_empty_range quiet_world (demo_args [] 1 7) []).
    reflexivity.
  - apply (run_zero_hosts_or_empty_range quiet_world
             (demo_args ["localhost"; "w1"] 5 2) []).
    + discriminate.
    + reflexivity.
Defined.

(** C4, as stated, fails on both counts: a run over an empty frame range
    (end 2 before start 5) completes and spawns a render process, and a
    run with no host raises [ZeroDivisionError]. *)
Lemma run_no_configuration_error :
  frames_of (demo_args ["localhost"] 5 2) = Ok []
  ∧ _run (demo_args ["localhost"] 5 2) quiet_world []
    = ([EPopen 0 "blender -b a.blend -o out/####.png -f "; EWait 0], Ok ())
  ∧ _run (demo_args [] 1 7) quiet_world [] = ([], Err ZeroDivisionError)
  ∧ (_run (demo_args [] 1 7) quiet_world []).2 ≠ Err ConfigurationError.
Proof. split_and!; [reflexivity..|discriminate]. Qed.

(** ** Runs that complete *)

(** Every listed host has an entry in the mapping, also when a host is
    listed more than once: indexing it never raises [KeyError]. *)
Lemma split_frames_per_host_total {A} (frames : list A) (hosts : list string) :
  hosts ≠ [] →
  ∃ d, split_frames_per_host frames hosts = Ok d
       ∧ ∀ host, host ∈ hosts → is_Some (d !! host).
Proof.
  intros Hne. unfold split_frames_per_host.
  destruct (slice_list_ok frames (Z.of_nat (length hosts)))
    as (chunks & -> & Hn & _).
  { destruct hosts; [done|]. simpl. lia. }
  rewrite Nat2Z.id in Hn. eexists. split; [reflexivity|].
  intros host Hin. unfold dict_of_pairs.
  destruct (dict_fold_lookup_key (zip hosts chunks) ∅ host) as (v & -> & _);
    [|done].
  rewrite fst_zip by lia. done.
Qed.

Section Completion.
Context (w : World) (args : Args).
Hypothesis stat_ok : ∀ h, is_Some (regex_search (stdout_of w h)).

Lemma launch_completes (d : gmap string (list Z)) (host : string)
    (h : list event) :
  is_Some (d !! host) → ∃ evs pid, launch args d host w h = (evs, Ok pid).
Proof.
  intros [fs Hfs]. unfold launch. rewrite run_bind_lift. unfold getitem.
  rewrite Hfs. case_bool_decide.
  - rewrite blender_eq. eauto.
  - rewrite remote_blender_eq.
    destruct (stat_ok (h ++ [EPopen (length h) (stat_command (blend_file args) host);
                             ECommunicate (length h)])) as [d1 ->].
    destruct (stat_ok ((h ++ [EPopen (length h) (stat_command (blend_file args) host);
                              ECommunicate (length h)])
                       ++ [EPopen (length h + 2)%nat
                             (stat_command (blend_file args) "localhost");
                           ECommunicate (length h + 2)%nat])) as [d2 ->].
    eauto.
Qed.

Lemma launch_loop_completes (d : gmap string (list Z)) (hosts : list string) :
  (∀ host, host ∈ hosts → is_Some (d !! host)) →
  ∀ h, ∃ evs pids, for_each (launch args d) hosts w h = (evs, Ok pids).
Proof.
  induction hosts as [|host hosts IH]; intros Hall h.
  - by exists [], [].
  - destruct (launch_completes d host h) as (e1 & pid & Hl).
    { apply Hall. left. }
    destruct (IH (λ x Hx, Hall x (list_elem_of_further _ _ _ Hx)) (h ++ e1))
      as (e2 & pids & Hloop).
    exists (e1 ++ e2), (pid :: pids). by rewrite for_each_cons, Hl, Hloop.
Qed.

(** With well-formed frame arguments, at least one host and timestamp
    queries that all match, the dispatch runs to completion. *)
Lemma run_completes (frames : list Z) (h : list event) :
  frames_of args = Ok frames → distribute args ≠ [] →
  ∃ tr, _run args w h = (tr, Ok ()).
Proof.
  intros Hframes Hhosts.
  destruct (split_frames_per_host_total frames (distribute args) Hhosts)
    as (d & Hd & Hall).
  destruct (launch_loop_completes d (distribute args) Hall h)
    as (pre & pids & Hlaunch).
  destruct (wait_loop_eq w pids (h ++ pre)) as [codes Hcodes].
  destruct (retrieve_loop_eq w args (distribute args)
              ((h ++ pre) ++ (EWait <$> pids))) as [us Hus].
  unfold _run. rewrite run_bind_lift, Hframes, run_bind_lift, Hd.
  rewrite run_bind, Hlaunch, run_bind, Hcodes, run_bind, Hus.
  eexists. reflexivity.
Qed.
End Completion.


(** * Further properties of the partitioner *)

Lemma concat_lookup_take_drop {A} (chunks : list (list A)) : ∀ i c,
  chunks !! i = Some c →
  c = take (length c) (drop (length (concat (take i chunks))) (concat chunks)).
Proof.
  induction chunks as [|c' chunks IH]; intros i c Hc; [done|].
  destruct i as [|i].
  - injection Hc as ->. rewrite take_0. simpl. rewrite drop_0.
    by rewrite take_app_length.
  - rewrite lookup_cons_ne_0 in Hc by done. simpl in Hc.
    change (take (S i) (c' :: chunks)) with (c' :: take i chunks).
    simpl concat. rewrite length_app, drop_app_add'; [|done]. by apply IH.
Qed.

Lemma chunk_offset_sum {A} (chunks : list (list A)) (n k : Z) :
  0 < k →
  (∀ i c, chunks !! i = Some c → Z.of_nat (length c) = chunk_size n k i) →
  ∀ i, (i ≤ length chunks)%nat →
  Z.of_nat (length (concat (take i chunks))) = chunk_offset n k i.
Proof.
  intros Hk Hsz. pose proof (Z.mod_pos_bound n k Hk) as Hmod.
  induction i as [|i IH]; intros Hi.
  - unfold chunk_offset. rewrite take_0. simpl. lia.
  - destruct (lookup_lt_is_Some_2 chunks i ltac:(lia)) as [c Hc].
    rewrite (take_S_r _ _ _ Hc), concat_app, length_app. simpl.
    rewrite app_nil_r, Nat2Z.inj_add, IH, (Hsz i c Hc) by lia.
    unfold chunk_offset, chunk_size. case_bool_decide; lia.
Qed.

Lemma slice_list_chunk_at {A} (input : list A) (K : Z) (i : nat) :
  1 ≤ K → (i < Z.to_nat K)%nat →
  ∃ chunks,
    slice_list input K = Ok chunks
    ∧ chunks !! i
      = Some (take (Z.to_nat (chunk_size (Z.of_nat (length input)) K i))
                   (drop (Z.to_nat (chunk_offset (Z.of_nat (length input)) K i))
                         input)).
Proof.
  intros HK Hi.
  destruct (slice_list_ok input K HK) as (chunks & Hrun & Hn & Hcat & Hsz).
  exists chunks. split; [done|].
  destruct (lookup_lt_is_Some_2 chunks i ltac:(lia)) as [c Hc].
  rewrite Hc. f_equal.
  rewrite (concat_lookup_take_drop chunks i c Hc), Hcat.
  rewrite <- (Hsz i c Hc), Nat2Z.id.
  rewrite <- (chunk_offset_sum chunks _ K ltac:(lia) Hsz i) by lia.
  by rewrite Nat2Z.id.
Qed.

(** X1. Each host receives a contiguous block: the [i]-th chunk is the
    [chunk_size] items of the input that start at position
    [i * (N div K) + min i (N mod K)]. The blocks tile the input: each
    starts where the one before ends, and the last ends at [N]. *)
Theorem slice_list_chunk_contiguous {A} (input : list A) (K : Z) (i : nat) :
  1 ≤ K → (i < Z.to_nat K)%nat →
  let N := Z.of_nat (length input) in
  (∃ chunks,
     slice_list input K = Ok chunks
     ∧ chunks !! i
       = Some (take (Z.to_nat (chunk_size N K i))
                    (drop (Z.to_nat (chunk_offset N K i)) input)))
  ∧ chunk_offset N K 0 = 0
  ∧ chunk_offset N K (S i) = chunk_offset N K i + chunk_size N K i
  ∧ chunk_offset N K (Z.to_nat K) = N.
Proof.
  intros HK Hi N.
  pose proof (Z.mod_pos_bound N K ltac:(lia)) as Hmod.
  pose proof (Z.div_mod N K ltac:(lia)) as Hdm.
  split_and!.
  - subst N.
    destruct (slice_list_ok input K HK) as (chunks & Hrun & Hn & Hcat & Hsz).
    exists chunks. split; [done|].
    destruct (lookup_lt_is_Some_2 chunks i ltac:(lia)) as [c Hc].
    rewrite Hc. f_equal.
    rewrite (concat_lookup_take_drop chunks i c Hc), Hcat.
    rewrite <- (Hsz i c Hc), Nat2Z.id.
    rewrite <- (chunk_offset_sum chunks _ K ltac:(lia) Hsz i) by lia.
    by rewrite Nat2Z.id.
  - unfold chunk_offset. lia.
  - unfold chunk_offset, chunk_size. case_bool_decide; lia.
  - unfold chunk_offset. rewrite Z2Nat.id by lia. lia.
Qed.

Lemma slice_list_chunk_contiguous_witness :
  let N := Z.of_nat (length [1; 2; 3; 4; 5; 6; 7]) in
  (∃ chunks,
     slice_list [1; 2; 3; 4; 5; 6; 7] 3 = Ok chunks
     ∧ chunks !! 1%nat
       = Some (take (Z.to_nat (chunk_size N 3 1))
                    (drop (Z.to_nat (chunk_offset N 3 1))
                          [1; 2; 3; 4; 5; 6; 7])))
  ∧ chunk_offset N 3 0 = 0
  ∧ chunk_offset N 3 2 = chunk_offset N 3 1 + chunk_size N 3 1
  ∧ chunk_offset N 3 (Z.to_nat 3) = N.
Proof.
  apply (slice_list_chunk_contiguous [1; 2; 3; 4; 5; 6; 7] 3 1); [lia|].
  vm_compute. lia.
Defined.

Lemma take_1_drop {A} (l : list A) (i : nat) :
  take 1 (drop i l) = from_option (λ x, [x]) [] (l !! i).
Proof.
  revert i. induction l as [|x l IH]; intros [|i]; simpl; try done.
  all: try (by rewrite take_0); try apply IH.
Qed.

(** X2. With more hosts than frames the first [N] hosts receive one
    frame each, in order, and every later host receives the empty
    sub-sequence. *)
Theorem slice_list_more_hosts_than_frames {A} (input : list A) (K : Z)
    (i : nat) :
  Z.of_nat (length input) < K → (i < Z.to_nat K)%nat →
  ∃ chunks,
    slice_list input K = Ok chunks
    ∧ chunks !! i = Some (from_option (λ x, [x]) [] (input !! i)).
Proof.
  intros HN Hi.
  destruct (slice_list_chunk_at input K i ltac:(lia) Hi)
    as (chunks & Hrun & Hc).
  exists chunks. split; [done|]. rewrite Hc. f_equal.
  unfold chunk_size, chunk_offset.
  rewrite Z.div_small, Z.mod_small by lia.
  case_bool_decide as Hlt.
  - replace (Z.to_nat (0 + 1)) with 1%nat by lia.
    replace (Z.to_nat (Z.of_nat i * 0 + Z.of_nat i `min` Z.of_nat (length input)))
      with i by lia.
    apply take_1_drop.
  - rewrite (lookup_ge_None_2 input i) by lia. simpl.
    replace (Z.to_nat (0 + 0)) with 0%nat by lia. apply take_0.
Qed.

Lemma slice_list_more_hosts_than_frames_witness :
  ∃ chunks,
    slice_list [7; 8] 3 = Ok chunks
    ∧ chunks !! 2%nat = Some (from_option (λ x, [x]) [] ([7; 8] !! 2%nat)).
Proof.
  apply (slice_list_more_hosts_than_frames [7; 8] 3 2); vm_compute; [done|lia].
Defined.

Lemma slice_list_cases {A} (input : list A) (size : Z) :
  (size < 0 ∧ slice_list input size = Ok [])
  ∨ (size = 0 ∧ slice_list input size = Err ZeroDivisionError)
  ∨ (0 < size ∧ ∃ chunks, slice_list input size = Ok chunks).
Proof.
  destruct (Z.lt_total size 0) as [Hs|[Hs|Hs]].
  - left. split; [done|]. unfold slice_list.
    rewrite bool_decide_false by lia. destruct size; try lia. reflexivity.
  - right. left. by subst.
  - right. right. split; [done|].
    destruct (slice_list_ok input size ltac:(lia)) as (chunks & Hrun & _).
    eauto.
Qed.

(** X3. [slice_list] never exhausts its iterator: whatever the input and
    the size, it does not raise [StopIteration]. It raises exactly when
    the size is zero ([ZeroDivisionError]), and for a negative size it
    returns no chunk at all. *)
Theorem slice_list_outcome {A} (input : list A) (size : Z) :
  slice_list input size ≠ Err StopIteration
  ∧ (slice_list input size = Err ZeroDivisionError ↔ size = 0)
  ∧ (size < 0 → slice_list input size = Ok [])
  ∧ (0 < size → ∃ chunks, slice_list input size = Ok chunks).
Proof.
  destruct (slice_list_cases input size)
    as [[Hs Hr]|[[Hs Hr]|[Hs [chunks Hr]]]]; rewrite Hr;
    split_and!; try done; try (intros; lia); eauto;
    split; intros; try done; lia.
Qed.

Lemma split_frames_per_host_one {A} (frames : list A) (host : string) :
  slice_list frames 1 = Ok [frames]
  ∧ split_frames_per_host frames [host] = Ok {[host := frames]}.
Proof.
  assert (slice_list frames 1 = Ok [frames]) as Hs.
  { destruct (slice_list_ok frames 1 ltac:(lia)) as (chunks & -> & Hn & Hcat & _).
    destruct chunks as [|c [|??]]; try done. simpl in Hcat.
    rewrite app_nil_r in Hcat. by subst. }
  split; [done|]. unfold split_frames_per_host.
  change (Z.of_nat (length [host])) with 1. rewrite Hs. simpl.
  unfold dict_of_pairs. simpl. by rewrite insert_empty.
Qed.

(** X4. A single host is assigned the whole frame list. *)
Theorem split_frames_per_host_single {A} (frames : list A) (host : string) :
  slice_list frames 1 = Ok [frames]
  ∧ split_frames_per_host frames [host] = Ok {[host := frames]}.
Proof.
  destruct (slice_list_ok frames 1 ltac:(lia)) as (chunks & Hs & Hn & Hcat & _).
  destruct chunks as [|c [|??]]; try done.
  simpl in Hcat. rewrite app_nil_r in Hcat. subst c.
  split; [done|]. unfold split_frames_per_host.
  change (Z.of_nat (length [host])) with 1. rewrite Hs. simpl.
  unfold dict_of_pairs. simpl. by rewrite insert_empty.
Qed.

(** X5. For any non-empty host list, repeated names included, the entry
    of a host is the chunk of its last position in the list, and a name
    that is not listed has no entry. *)
Theorem split_frames_per_host_last_wins {A} (frames : list A)
    (hosts : list string) :
  hosts ≠ [] →
  ∃ chunks d,
    slice_list frames (Z.of_nat (length hosts)) = Ok chunks
    ∧ split_frames_per_host frames hosts = Ok d
    ∧ (∀ i host, hosts !! i = Some host →
         (∀ j, (i < j)%nat → hosts !! j ≠ Some host) →
         d !! host = chunks !! i ∧ is_Some (chunks !! i))
    ∧ (∀ host, host ∉ hosts → d !! host = None).
Proof.
  intros Hne. unfold split_frames_per_host.
  destruct (slice_list_ok frames (Z.of_nat (length hosts)))
    as (chunks & -> & Hn & _).
  { destruct hosts; [done|]. simpl. lia. }
  rewrite Nat2Z.id in Hn. exists chunks. eexists.
  split; [done|]. split; [reflexivity|]. split.
  - intros i host Hi Hlast.
    destruct (lookup_lt_is_Some_2 chunks i) as [c Hc].
    { rewrite Hn. by eapply lookup_lt_Some. }
    rewrite Hc. split; [|by eexists]. unfold dict_of_pairs.
    assert (zip hosts chunks !! i = Some (host, c)) as Hz.
    { rewrite lookup_zip_with, Hi. simpl. by rewrite Hc. }
    rewrite <- (take_drop_middle _ _ _ Hz), fold_left_app. simpl.
    rewrite dict_fold_lookup_fresh; [apply lookup_insert_eq|].
    intros [j Hj]%list_elem_of_lookup.
    rewrite list_lookup_fmap, lookup_drop in Hj.
    destruct (zip hosts chunks !! (S i + j)%nat) as [[h' c']|] eqn:Hz';
      simplify_eq/=.
    rewrite lookup_zip_with in Hz'.
    destruct (hosts !! S (i + j)) as [h''|] eqn:Hh; simplify_eq/=.
    destruct (chunks !! S (i + j)); simplify_eq/=.
    by apply (Hlast (S (i + j)) ltac:(lia)).
  - intros host Hout. unfold dict_of_pairs.
    rewrite dict_fold_lookup_fresh; [done|]. by rewrite fst_zip by lia.
Qed.

Lemma split_frames_per_host_last_wins_witness :
  ∃ chunks d,
    slice_list [1; 2; 3] (Z.of_nat (length ["a"; "b"; "a"])) = Ok chunks
    ∧ split_frames_per_host [1; 2; 3] ["a"; "b"; "a"] = Ok d
    ∧ (∀ i host, ["a"; "b"; "a"] !! i = Some host →
         (∀ j, (i < j)%nat → ["a"; "b"; "a"] !! j ≠ Some host) →
         d !! host = chunks !! i ∧ is_Some (chunks !! i))
    ∧ (∀ host, host ∉ ["a"; "b"; "a"] → d !! host = None).
Proof.
  apply (split_frames_per_host_last_wins [1; 2; 3] ["a"; "b"; "a"]).
  discriminate.
Defined.

(** * Further properties of the frame arguments *)

Lemma range_lookup (start stop step : Z) (frames : list Z) (i : nat) (f : Z) :
  range start stop step = Ok frames →
  frames !! i = Some f → f = start + Z.of_nat i * step.
Proof.
  unfold range. case_bool_decide; [done|]. intros [= <-].
  rewrite list_lookup_fmap. intros Hf.
  destruct (seq 0 _ !! i) as [j|] eqn:Hj; simplify_eq/=.
  apply lookup_seq in Hj as [-> _]. done.
Qed.

Lemma range_elem_of (start stop step : Z) (frames : list Z) (f : Z) :
  0 < step → range start stop step = Ok frames →
  f ∈ frames ↔ start ≤ f < stop ∧ (f - start) `mod` step = 0.
Proof.
  intros Hstep. unfold range, range_length.
  rewrite bool_decide_false by lia. rewrite bool_decide_true by done.
  intros [= <-]. rewrite list_elem_of_fmap. setoid_rewrite elem_of_seq.
  split.
  - intros (i & -> & _ & Hi). case_bool_decide as Hlt; [|simpl in Hi; lia].
    assert (Z.of_nat i ≤ (stop - start - 1) / step) as Hle by lia.
    pose proof (Z.mul_div_le (stop - start - 1) step Hstep) as Hmul.
    split; [nia|].
    replace (start + Z.of_nat i * step - start) with (Z.of_nat i * step) by lia.
    apply Z.mod_mul. lia.
  - intros [[Hlo Hhi] Hmod].
    apply Z.div_exact in Hmod; [|lia].
    assert (0 ≤ (f - start) / step) as Hq by (apply Z.div_pos; lia).
    exists (Z.to_nat ((f - start) / step)). split; [lia|]. split; [lia|].
    rewrite bool_decide_true by lia.
    assert ((f - start) / step ≤ (stop - start - 1) / step)
      by (apply Z.div_le_mono; lia).
    lia.
Qed.

(** X6. With a frame count and a positive stride the frame arguments
    are accepted, the [i]-th frame is [start + i * jump], and the frames
    are exactly the numbers from the start frame on, in steps of the
    stride, up to the frame count and up to the end frame when one other
    than zero is given (an end frame of zero sets no bound). *)
Theorem frames_of_positive_jump (args : Args) (n : Z) :
  num_frames args = Some n → 0 < jump args →
  ∃ frames,
    frames_of args = Ok frames
    ∧ (∀ i f, frames !! i = Some f →
         f = start_frame args + Z.of_nat i * jump args)
    ∧ (∀ f, f ∈ frames ↔
         start_frame args ≤ f ≤ n
         ∧ (∀ e, end_frame args = Some e → e ≠ 0 → f ≤ e)
         ∧ (f - start_frame args) `mod` jump args = 0).
Proof.
  intros Hn Hjump. unfold frames_of. rewrite Hn.
  set (last := if truthy (end_frame args)
               then match end_frame args with
                    | Some e => Z.min n e
                    | None => n
                    end
               else n).
  assert ((if truthy (end_frame args)
           then match end_frame args with
                | Some e => Ok (n `min` e)
                | None => Err TypeError
                end
           else Ok n) = Ok last) as ->.
  { unfold last, truthy. destruct (end_frame args); [|done].
    by case_bool_decide. }
  simpl.
  destruct (range (start_frame args) (last + 1) (jump args)) as [frames|e]
    eqn:Hrange.
  2:{ unfold range in Hrange. rewrite bool_decide_false in Hrange by lia.
      done. }
  exists frames. split; [done|]. split.
  - intros i f. by apply (range_lookup _ (last + 1)).
  - intros f. rewrite (range_elem_of _ _ _ _ f Hjump Hrange).
    unfold last, truthy. destruct (end_frame args) as [e|].
    + case_bool_decide as He.
      * split.
        -- intros [[??] ?]. split_and!; try lia. intros ? [= <-] _. lia.
        -- intros ([??] & Hend & ?). specialize (Hend e eq_refl He). lia.
      * split.
        -- intros [[??] ?]. split_and!; try lia. intros ? [= <-] ?. done.
        -- intros ([??] & _ & ?). lia.
    + split.
      * intros [[??] ?]. split_and!; try lia. done.
      * intros ([??] & _ & ?). lia.
Qed.

Lemma frames_of_positive_jump_witness :
  ∃ frames,
    frames_of (demo_args ["localhost"] 2 7) = Ok frames
    ∧ (∀ i f, frames !! i = Some f → f = 2 + Z.of_nat i * 1)
    ∧ (∀ f, f ∈ frames ↔
         2 ≤ f ≤ 10
         ∧ (∀ e, Some 7 = Some e → e ≠ 0 → f ≤ e)
         ∧ (f - 2) `mod` 1 = 0).
Proof.
  apply (frames_of_positive_jump (demo_args ["localhost"] 2 7) 10).
  - reflexivity.
  - reflexivity.
Defined.

(** X7. The frame arguments are rejected in exactly two cases: a missing
    frame count raises [TypeError], and a zero stride with a frame count
    raises [ValueError]. *)
Theorem frames_of_errors (args : Args) :
  (frames_of args = Err TypeError ↔ num_frames args = None)
  ∧ (frames_of args = Err ValueError
     ↔ is_Some (num_frames args) ∧ jump args = 0)
  ∧ (is_Some (num_frames args) → jump args ≠ 0 →
     ∃ frames, frames_of args = Ok frames).
Proof.
  unfold frames_of, range, truthy.
  destruct (num_frames args) as [n|], (end_frame args) as [e|]; simpl;
    repeat case_bool_decide; simpl; split_and!;
    try (split; intros; try done; try (by destruct_and?; try done));
    try (intros; by eauto);
    try (intros [[? ?] ?]; done);
    try (intros [[] ?]; done).
Qed.

(** * Further properties of the timestamp query *)

Lemma search_from_eq (bol : bool) (s : string) :
  search_from bol s
  = match (if bol then match_here modify_regex s else None) with
    | Some m => Some m
    | None =>
        match s with
        | EmptyString => None
        | String c s' => search_from (bool_decide (c = "010"%char)) s'
        end
    end.
Proof. destruct s; reflexivity. Qed.

Lemma match_here_Some (re : list atom) : ∀ s m,
  match_here re s = Some m →
  String.length m = length re ∧ ∃ post, s = m +:+ post.
Proof.
  induction re as [|a re IH]; intros s m Hm; simpl in Hm.
  - injection Hm as <-. split; [done|]. by exists s.
  - destruct s as [|c s]; [done|].
    destruct (atom_matches a c); [|done].
    destruct (match_here re s) as [m'|] eqn:Hm'; simplify_eq/=.
    destruct (IH s m' Hm') as (Hlen & post & ->).
    split; [by rewrite Hlen|]. by exists post.
Qed.

Lemma match_here_lits (p : string) (re : list atom) : ∀ s m,
  match_here (lits p ++ re) s = Some m → startswith p m = true.
Proof.
  induction p as [|x p IH]; intros s m Hm; [done|].
  unfold lits in *. simpl in Hm.
  destruct s as [|c s]; [done|]. case_bool_decide as Hc; [|done].
  destruct (match_here _ s) as [m'|] eqn:Hm'; simplify_eq/=.
  rewrite bool_decide_true by done. simpl. by eapply IH.
Qed.

Lemma search_from_Some (s : string) : ∀ bol m,
  search_from bol s = Some m →
  ∃ pre post,
    s = pre +:+ m +:+ post
    ∧ match_here modify_regex (m +:+ post) = Some m
    ∧ (pre = "" → bol = true)
    ∧ (pre ≠ "" → endswith "010" pre = true).
Proof.
  induction s as [|c s IH]; intros bol m; rewrite search_from_eq.
  - destruct bol; [|done].
    destruct (match_here modify_regex "") as [m'|] eqn:Hm; [|done].
    intros [= ->]. destruct (match_here_Some _ _ _ Hm) as (_ & post & Hpost).
    exists "", post. rewrite <- Hpost. done.
  - destruct (if bol then match_here modify_regex (String c s) else None)
      as [m'|] eqn:Hm.
    + intros [= ->]. destruct bol; [|done].
      destruct (match_here_Some _ _ _ Hm) as (_ & post & Hpost).
      exists "", post. rewrite <- Hpost. done.
    + intros Hs. apply IH in Hs as (pre & post & -> & Hmatch & Hbol & Hend).
      exists (String c pre), post. split_and!; try done.
      intros _. destruct pre as [|c' pre'].
      * simpl. apply Hbol. done.
      * simpl. apply Hend. done.
Qed.

(** X8. A date returned by the search is the 27 characters
    [Modify: YYYY-MM-DD HH:MM:SS] as they stand in the output, at the
    start of the output or right after a newline. *)
Theorem regex_search_Some (s m : string) :
  regex_search s = Some m →
  String.length m = 27%nat
  ∧ startswith "Modify: " m = true
  ∧ ∃ pre post, s = pre +:+ m +:+ post ∧ line_start pre.
Proof.
  intros Hs. apply search_from_Some in Hs
    as (pre & post & -> & Hmatch & _ & Hend).
  split_and!.
  - by destruct (match_here_Some _ _ _ Hmatch) as [-> _].
  - by apply (match_here_lits "Modify: " _ _ _ Hmatch).
  - exists pre, post. split; [done|]. unfold line_start.
    destruct pre; [by left|right]. by apply Hend.
Qed.

Lemma regex_search_Some_witness :
  String.length "Modify: 2020-01-02 03:04:05" = 27%nat
  ∧ startswith "Modify: " "Modify: 2020-01-02 03:04:05" = true
  ∧ ∃ pre post,
      "  File: a.blend
Modify: 2020-01-02 03:04:05.000000000 +0000
Change: 2020-01-03" = pre +:+ "Modify: 2020-01-02 03:04:05" +:+ post
      ∧ line_start pre.
Proof.
  apply (regex_search_Some "  File: a.blend
Modify: 2020-01-02 03:04:05.000000000 +0000
Change: 2020-01-03"). reflexivity.
Defined.

Lemma string_app_cons (c : ascii) (s t : string) :
  String c s +:+ t = String c (s +:+ t).
Proof. reflexivity. Qed.

Lemma string_app_assoc (s t u : string) : (s +:+ t) +:+ u = s +:+ t +:+ u.
Proof.
  induction s as [|c s IH]; [done|]. by rewrite !string_app_cons, IH.
Qed.

Lemma string_length_app (s t : string) :
  String.length (s +:+ t) = (String.length s + String.length t)%nat.
Proof.
  induction s as [|c s IH]; [done|]. rewrite string_app_cons. simpl.
  by rewrite IH.
Qed.

(** A match attempt only reads as many characters as the pattern has. *)
Lemma match_here_app (re : list atom) : ∀ a b b',
  (length re ≤ String.length a)%nat →
  match_here re (a +:+ b) = match_here re (a +:+ b').
Proof.
  induction re as [|x re IH]; intros a b b' Hlen; [done|].
  destruct a as [|c a]; [simpl in Hlen; lia|].
  rewrite !string_app_cons. simpl. destruct (atom_matches x c); [|done].
  rewrite (IH a b b'); [done|]. simpl in Hlen. lia.
Qed.

Lemma search_from_rest (m r1 r2 : string) :
  match_here modify_regex m = Some m →
  ∀ t bol, (t = "" → bol = true) → (t ≠ "" → endswith "010" t = true) →
  search_from bol (t +:+ m +:+ r1) = search_from bol (t +:+ m +:+ r2).
Proof.
  intros Hm.
  destruct (match_here_Some _ _ _ Hm) as [Hlen _].
  assert (∀ r, match_here modify_regex (m +:+ r) = Some m) as Hext.
  { intros r. rewrite (match_here_app _ m r "") by lia.
    by rewrite string_app_nil_r. }
  induction t as [|c t IH]; intros bol Hbol Hend.
  - rewrite (Hbol eq_refl). change ("" +:+ m +:+ r1) with (m +:+ r1).
    change ("" +:+ m +:+ r2) with (m +:+ r2).
    rewrite !search_from_eq, !Hext. done.
  - rewrite !string_app_cons.
    rewrite (search_from_eq bol (String c (t +:+ m +:+ r1))),
      (search_from_eq bol (String c (t +:+ m +:+ r2))).
    assert (match_here modify_regex (String c (t +:+ m +:+ r1))
            = match_here modify_regex (String c (t +:+ m +:+ r2))) as ->.
    { rewrite <- !string_app_cons, <- !string_app_assoc.
      apply match_here_app. rewrite string_length_app. lia. }
    destruct (if bol then _ else _); [done|]. apply IH.
    + intros ->. specialize (Hend ltac:(done)). simpl in Hend.
      by rewrite Hend.
    + intros Hne. specialize (Hend ltac:(done)). destruct t; done.
Qed.

(** X9. The date read from a [Modify:] line does not depend on what
    follows the seconds: two outputs that agree up to and including the
    first 27 characters of a [Modify:] line at a line start give the
    same search result, whatever fraction of a second, zone or further
    lines come after. *)
Theorem regex_search_ignores_rest (pre m rest1 rest2 : string) :
  match_here modify_regex m = Some m → line_start pre →
  regex_search (pre +:+ m +:+ rest1) = regex_search (pre +:+ m +:+ rest2).
Proof.
  intros Hm Hpre. unfold regex_search. apply search_from_rest; [done|done|].
  intros Hne. by destruct Hpre.
Qed.

Lemma regex_search_ignores_rest_witness :
  regex_search ("  File: a.blend
" +:+ "Modify: 2020-01-02 03:04:05" +:+ ".100000000 +0000")
  = regex_search ("  File: a.blend
" +:+ "Modify: 2020-01-02 03:04:05" +:+ ".900000000 +0100").
Proof.
  apply (regex_search_ignores_rest "  File: a.blend
" "Modify: 2020-01-02 03:04:05" ".100000000 +0000" ".900000000 +0100").
  - reflexivity.
  - right. reflexivity.
Defined.

(** * Further properties of the dispatcher *)

Lemma frames_of_ValueError (args : Args) :
  frames_of args = Err ValueError → jump args = 0.
Proof.
  unfold frames_of, range.
  destruct (truthy (end_frame args)), (num_frames args), (end_frame args);
    simpl; try done; case_bool_decide; done.
Qed.

Lemma split_frames_per_host_Err {A} (frames : list A) (hosts : list string)
    (e : exn) :
  split_frames_per_host frames hosts = Err e →
  e = ZeroDivisionError ∧ hosts = [].
Proof.
  unfold split_frames_per_host.
  destruct (slice_list_cases frames (Z.of_nat (length hosts)))
    as [[Hs _]|[[Hs Hr]|[_ [chunks Hr]]]]; [lia| |].
  - rewrite Hr. intros [= <-]. split; [done|]. by destruct hosts.
  - by rewrite Hr.
Qed.

Section Failures.
Context (w : World) (args : Args).
Implicit Types (h : list event) (d : gmap string (list Z)).

(** A launch that raises has started no render process and waited on
    nothing; with an entry for the host, it is a timestamp query of a
    non-local host that raised. *)
Lemma launch_Err d host h evs e :
  launch args d host w h = (evs, Err e) →
  (∀ p, EWait p ∉ evs)
  ∧ (is_Some (d !! host) → e = TypeError ∧ host ≠ "localhost").
Proof.
  unfold launch. rewrite run_bind_lift. unfold getitem.
  destruct (d !! host) as [fs|] eqn:Hfs.
  - case_bool_decide as Hhost.
    + by rewrite blender_eq.
    + rewrite remote_blender_eq.
      destruct (regex_search _) as [remote_date|].
      * destruct (regex_search _) as [local_date|]; [done|].
        intros [= <- <-]. split; [|done]. intros p Hp. simpl in Hp.
        repeat (apply elem_of_cons in Hp as [Hp|Hp]); try done.
        by apply elem_of_nil in Hp.
      * intros [= <- <-]. split; [|done]. intros p Hp.
        repeat (apply elem_of_cons in Hp as [Hp|Hp]); try done.
        by apply elem_of_nil in Hp.
  - intros [= <- <-]. split; [|by intros [??]].
    intros p Hp. by apply elem_of_nil in Hp.
Qed.

Lemma launch_loop_Err d hosts : ∀ h evs e,
  (∀ host, host ∈ hosts → is_Some (d !! host)) →
  for_each (launch args d) hosts w h = (evs, Err e) → e = TypeError.
Proof.
  induction hosts as [|host hosts IH]; intros h evs e Hall; [done|].
  rewrite for_each_cons.
  destruct (launch args d host w h) as [e1 [pid|e']] eqn:Hl.
  - destruct (for_each (launch args d) hosts w (h ++ e1)) as [e2 [ys|e'']]
      eqn:Hloop; [done|].
    intros [= <- <-]. eapply IH; [|exact Hloop].
    intros host' Hin. apply Hall. by right.
  - intros [= <- <-]. apply launch_Err in Hl as [_ Hl].
    apply Hl, Hall. left.
Qed.

(** The loop stops at the first launch that raises. *)
Lemma for_each_stops {A B} (f : A → M B) (l1 : list A) (x : A) (l2 : list A) :
  ∀ h pre ys evs e,
  for_each f l1 w h = (pre, Ok ys) →
  f x w (h ++ pre) = (evs, Err e) →
  for_each f (l1 ++ x :: l2) w h = (pre ++ evs, Err e).
Proof.
  induction l1 as [|a l1 IH]; intros h pre ys evs e Hl1 Hx.
  - injection Hl1 as <- <-. rewrite app_nil_r in Hx. simpl app.
    by rewrite for_each_cons, Hx.
  - rewrite for_each_cons in Hl1. simpl app. rewrite for_each_cons.
    destruct (f a w h) as [e1 [y|e']]; [|done].
    destruct (for_each f l1 w (h ++ e1)) as [e2 [ys'|e']] eqn:Hrest; [|done].
    injection Hl1 as <- <-. rewrite app_assoc in Hx.
    rewrite (IH _ _ _ _ _ Hrest Hx). by rewrite app_assoc.
Qed.
End Failures.

(** X10. A dispatch never raises [KeyError] (every listed host,
    repeated or not, has an entry in the mapping it indexes), nor
    [StopIteration] (the partitioner never exhausts its iterator), nor
    [IndexError]. When it raises [ZeroDivisionError] the host list is
    empty and no process has been started. *)
Theorem run_exceptions (w : World) (args : Args) (h tr : list event)
    (e : exn) :
  _run args w h = (tr, Err e) →
  e ≠ KeyError ∧ e ≠ StopIteration ∧ e ≠ IndexError
  ∧ (e = ZeroDivisionError → distribute args = [] ∧ tr = []).
Proof.
  unfold _run. rewrite run_bind_lift.
  destruct (frames_of args) as [frames|e'] eqn:Hframes.
  - rewrite run_bind_lift.
    destruct (split_frames_per_host frames (distribute args)) as [d|e']
      eqn:Hd.
    + rewrite run_bind.
      destruct (for_each (launch args d) (distribute args) w h)
        as [pre [pids|e']] eqn:Hlaunch.
      * rewrite run_bind.
        destruct (wait_loop_eq w pids (h ++ pre)) as [codes ->].
        rewrite run_bind.
        destruct (retrieve_loop_eq w args (distribute args)
                    ((h ++ pre) ++ (EWait <$> pids))) as [us ->].
        done.
      * intros [= <- <-].
        assert (e' = TypeError) as ->.
        { eapply launch_loop_Err; [|exact Hlaunch].
          destruct (distribute args) as [|host hosts] eqn:Hhosts.
          - intros host Hin. by apply elem_of_nil in Hin.
          - destruct (split_frames_per_host_total frames (host :: hosts))
              as (d' & Hd' & Hall); [done|].
            rewrite Hd in Hd'. by injection Hd' as <-. }
        split_and!; done.
    + intros [= <- <-]. apply split_frames_per_host_Err in Hd as [-> Hhosts].
      split_and!; done.
  - intros [= <- <-].
    apply frames_of_Err in Hframes as [-> | ->]; split_and!; done.
Qed.

Lemma run_exceptions_witness :
  ZeroDivisionError ≠ KeyError ∧ ZeroDivisionError ≠ StopIteration
  ∧ ZeroDivisionError ≠ IndexError
  ∧ (ZeroDivisionError = ZeroDivisionError →
     distribute (demo_args [] 1 7) = [] ∧ @nil event = []).
Proof.
  apply (run_exceptions quiet_world (demo_args [] 1 7) [] [] ZeroDivisionError).
  reflexivity.
Defined.

(** X11. When the launch of some host raises, the dispatch ends there
    with that exception: the render processes of the hosts before it
    have been started and are in the trace, none of them is ever waited
    on, and nothing is retrieved or cleaned up. *)
Theorem run_failed_launch_orphans (w : World) (args : Args)
    (h pre evs : list event) (frames : list Z) (d : gmap string (list Z))
    (hosts1 hosts2 : list string) (host : string) (pids : list nat)
    (e : exn) :
  frames_of args = Ok frames →
  split_frames_per_host frames (distribute args) = Ok d →
  distribute args = hosts1 ++ host :: hosts2 →
  for_each (launch args d) hosts1 w h = (pre, Ok pids) →
  launch args d host w (h ++ pre) = (evs, Err e) →
  _run args w h = (pre ++ evs, Err e)
  ∧ Forall2 (λ host' pid, ∃ fs,
               d !! host' = Some fs
               ∧ (h ++ pre ++ evs) !! pid
                 = Some (EPopen pid (render_command args fs host')))
            hosts1 pids
  ∧ (∀ pid, pid ∈ pids → EWait pid ∉ pre ++ evs).
Proof.
  intros Hframes Hd Hhosts Hpre Hfail. split_and!.
  - unfold _run. rewrite run_bind_lift, Hframes, run_bind_lift, Hd, run_bind.
    rewrite Hhosts.
    by rewrite (for_each_stops w _ hosts1 host hosts2 h pre pids evs e Hpre Hfail).
  - apply launch_loop_Ok in Hpre as (Hall & _).
    eapply Forall2_impl; [exact Hall|]. simpl.
    intros host' pid (fs & Hfs & Hpid). exists fs. split; [done|].
    rewrite app_assoc. by apply lookup_app_l_Some.
  - intros pid Hpid Hin. apply elem_of_app in Hin as [Hin|Hin].
    + apply launch_loop_Ok in Hpre as (_ & _ & _ & Hwaits & _).
      apply Hwaits in Hin as [Hin _]. done.
    + apply launch_Err in Hfail as [Hfail _]. by apply Hfail in Hin.
Qed.

Lemma run_failed_launch_orphans_witness :
  let args := demo_args ["localhost"; "w1"] 1 7 in
  let d : gmap string (list Z) :=
    <["w1" := [5; 6; 7]]> (<["localhost" := [1; 2; 3; 4]]> ∅) in
  let pre := [EPopen 0 "blender -b a.blend -o out/####.png -f 1,2,3,4"] in
  let evs := [EPopen 1 (stat_command "a.blend" "w1"); ECommunicate 1] in
  _run args silent_world [] = (pre ++ evs, Err TypeError)
  ∧ Forall2 (λ host' pid, ∃ fs,
               d !! host' = Some fs
               ∧ ([] ++ pre ++ evs) !! pid
                 = Some (EPopen pid (render_command args fs host')))
            ["localhost"] [0%nat]
  ∧ (∀ pid, pid ∈ [0%nat] → EWait pid ∉ pre ++ evs).
Proof.
  apply (run_failed_launch_orphans silent_world
           (demo_args ["localhost"; "w1"] 1 7) [] _ _ [1; 2; 3; 4; 5; 6; 7]
           _ ["localhost"] [] "w1" [0%nat] TypeError); reflexivity.
Defined.

(** X12. In a run that completes for pairwise distinct hosts, the frame
    range is cut into one block per host and each host's render command
    carries exactly its block: together the launched commands cover
    every frame once. *)
Theorem run_covers_frames (w : World) (args : Args) (h tr : list event) :
  _run args w h = (tr, Ok ()) → NoDup (distribute args) →
  ∃ (frames : list Z) (chunks : list (list Z)) (pids : list nat),
    frames_of args = Ok frames
    ∧ concat chunks = frames
    ∧ length chunks = length (distribute args)
    ∧ ∀ i host, distribute args !! i = Some host →
        ∃ fs pid,
          chunks !! i = Some fs ∧ pids !! i = Some pid
          ∧ (h ++ tr) !! pid = Some (EPopen pid (render_command args fs host)).
Proof.
  intros Hrun Hnd.
  apply run_Ok in Hrun as (frames & d & pre & pids & Hf & Hd & Hlaunch & ->).
  apply launch_loop_Ok in Hlaunch as (Hall & _).
  unfold split_frames_per_host in Hd.
  destruct (distribute args) as [|host0 hosts0] eqn:Hhosts; [done|].
  rewrite <- Hhosts in *.
  destruct (slice_list_ok frames (Z.of_nat (length (distribute args))))
    as (chunks & Hchunks & Hn & Hcat & _).
  { rewrite Hhosts. simpl. lia. }
  rewrite Hchunks in Hd. simpl in Hd. injection Hd as <-.
  rewrite Nat2Z.id in Hn.
  pose proof (dict_of_pairs_zip (distribute args) chunks Hnd (eq_sym Hn))
    as Hentries.
  exists frames, chunks, pids. split_and!; try done.
  intros i host Hi.
  destruct (Forall2_lookup_l _ _ _ _ _ Hall Hi) as (pid & Hpid & fs & Hfs & Hev).
  destruct (Forall2_lookup_l _ _ _ _ _ Hentries Hi) as (c & Hc & Hdc).
  rewrite Hdc in Hfs. injection Hfs as ->.
  exists fs, pid. split_and!; try done.
  rewrite app_assoc. by apply lookup_app_l_Some.
Qed.

Lemma run_covers_frames_witness :
  let args := demo_args ["localhost"; "w1"] 1 7 in
  let tr := (_run args quiet_world []).1 in
  ∃ (frames : list Z) (chunks : list (list Z)) (pids : list nat),
    frames_of args = Ok frames
    ∧ concat chunks = frames
    ∧ length chunks = length (distribute args)
    ∧ ∀ i host, distribute args !! i = Some host →
        ∃ fs pid,
          chunks !! i = Some fs ∧ pids !! i = Some pid
          ∧ ([] ++ tr) !! pid = Some (EPopen pid (render_command args fs host)).
Proof.
  apply (run_covers_frames quiet_world (demo_args ["localhost"; "w1"] 1 7) []).
  - reflexivity.
  - apply (bool_decide_unpack _). vm_compute. exact I.
Defined.


(** * Properties of the interpolation tool *)

Lemma list_getitem_lookup {A} (l : list A) (i : nat) (x : A) :
  l !! i = Some x → list_getitem l (Z.of_nat i) = Ok x.
Proof.
  intros Hx. pose proof (lookup_lt_Some _ _ _ Hx) as Hlt.
  unfold list_getitem. cbv zeta.
  rewrite (bool_decide_false (Z.of_nat i < 0)) by lia.
  rewrite bool_decide_true by lia. by rewrite Nat2Z.id, Hx.
Qed.

Section InterpolateFacts.
Context {Img : Type}.
Implicit Types (images : list Img) (groups : list (Img * Img)).

(** The loop neither runs out of fuel nor indexes out of range, and
    appends the pairs of neighbours from position [c] on. *)
Lemma group_loop_from images (fuel : nat) : ∀ (c : nat) groups,
  (length images - 1 - c ≤ fuel)%nat →
  group_loop fuel images (Z.of_nat c) (Z.of_nat (length images) - 1) groups
  = Some (Ok (groups ++ zip (drop c images) (drop (S c) images))).
Proof.
  induction fuel as [|fuel IH]; intros c groups Hfuel.
  - simpl. rewrite bool_decide_false by lia.
    rewrite (drop_ge images (S c)) by lia.
    by rewrite zip_with_nil_r, app_nil_r.
  - simpl. case_bool_decide as Hlt.
    + destruct (lookup_lt_is_Some_2 images c ltac:(lia)) as [a Ha].
      destruct (lookup_lt_is_Some_2 images (S c) ltac:(lia)) as [b Hb].
      rewrite (list_getitem_lookup _ _ _ Ha).
      replace (Z.of_nat c + 1) with (Z.of_nat (S c)) by lia.
      rewrite (list_getitem_lookup _ _ _ Hb).
      rewrite IH by lia. rewrite <- app_assoc.
      rewrite (drop_S _ _ _ Ha), (drop_S _ _ _ Hb). done.
    + rewrite (drop_ge images (S c)) by lia.
      by rewrite zip_with_nil_r, app_nil_r.
Qed.
End InterpolateFacts.

(** X13. The grouping loop of the interpolation tool ends within
    [len(images)] iterations without an index error and yields the pairs
    of neighbouring frames, in order: one pair fewer than there are
    frames, and none for an empty or one-frame input. *)
Theorem group_loop_neighbours {Img} (images : list Img) (fuel : nat) :
  (length images ≤ fuel)%nat →
  group_loop fuel images 0 (Z.of_nat (length images) - 1) []
  = Some (Ok (zip images (drop 1 images)))
  ∧ length (zip images (drop 1 images)) = (length images - 1)%nat.
Proof.
  intros Hfuel. split.
  - change 0 with (Z.of_nat 0). rewrite group_loop_from by lia. done.
  - rewrite length_zip_with, length_drop. lia.
Qed.

Lemma group_loop_neighbours_witness :
  group_loop 3 [10; 20; 30] 0 (Z.of_nat (length [10; 20; 30]) - 1) []
  = Some (Ok (zip [10; 20; 30] (drop 1 [10; 20; 30])))
  ∧ length (zip [10; 20; 30] (drop 1 [10; 20; 30]))
    = (length [10; 20; 30] - 1)%nat.
Proof. apply (group_loop_neighbours [10; 20; 30] 3). vm_compute. lia. Defined.

Section SliceAssignment.
Context {A : Type}.
Implicit Types (l vals acc : list A).

(** Assigning [vals] to the positions [s + 2 * k0], [s + 2 * (k0 + 1)],
    ... of [acc]. *)
Lemma fold_setitem_lookup (s : nat) vals : ∀ (k0 : nat) acc,
  (length vals = 0 ∨ s + 2 * (k0 + length vals) ≤ length acc + 1)%nat →
  let res :=
    fold_left (λ acc (iv : Z * A), <[Z.to_nat iv.1 := iv.2]> acc)
      (zip ((λ i : nat, Z.of_nat s + Z.of_nat i * 2)
              <$> seq k0 (length vals)) vals) acc in
  length res = length acc
  ∧ ∀ j, res !! j
         = if bool_decide (s + 2 * k0 ≤ j ∧ (j - s) `mod` 2 = 0
                           ∧ (j - s) / 2 < k0 + length vals)%nat
           then vals !! ((j - s) / 2 - k0)%nat
           else acc !! j.
Proof.
  induction vals as [|v vals IH]; intros k0 acc Hbound res.
  - subst res. cbn -[Nat.div Nat.modulo]. split; [done|]. intros j.
    rewrite bool_decide_false; [done|].
    intros (H1 & H2 & H3). pose proof (Nat.div_mod_eq (j - s) 2). lia.
  - subst res. cbn -[Nat.div Nat.modulo Z.mul Z.add Z.of_nat Z.to_nat Nat.mul].
    replace (Z.to_nat (Z.of_nat s + Z.of_nat k0 * 2)) with (s + 2 * k0)%nat
      by lia.
    destruct (IH (S k0) (<[(s + 2 * k0)%nat := v]> acc)) as [Hlen Hlook].
    { rewrite length_insert. cbn [length] in Hbound. lia. }
    rewrite length_insert in Hlen. split; [done|]. intros j.
    rewrite Hlook. cbn [length] in Hbound. cbn [length].
    destruct (decide (j = s + 2 * k0)%nat) as [->|Hne].
    + rewrite bool_decide_false by lia.
      rewrite list_lookup_insert_eq by lia.
      rewrite bool_decide_true;
        [|split_and!; [lia| |];
          replace (s + 2 * k0 - s)%nat with (k0 * 2)%nat by lia;
          [apply Nat.Div0.mod_mul|rewrite Nat.div_mul by done; lia]].
      replace (s + 2 * k0 - s)%nat with (k0 * 2)%nat by lia.
      rewrite Nat.div_mul by done. by rewrite Nat.sub_diag.
    + rewrite list_lookup_insert_ne by done.
      case_bool_decide as Hc1.
      * destruct Hc1 as (H1 & H2 & H3).
        pose proof (Nat.div_mod_eq (j - s) 2) as Hdm.
        rewrite bool_decide_true by (split_and!; lia).
        replace ((j - s) / 2 - k0)%nat with (S ((j - s) / 2 - S k0)) by lia.
        done.
      * rewrite bool_decide_false; [done|].
        intros (H1 & H2 & H3). apply Hc1. split_and!; [|done|lia].
        pose proof (Nat.div_mod_eq (j - s) 2). lia.
Qed.

Lemma setitem_slice_spec l (s : nat) vals :
  Z.of_nat (length vals)
  = range_length (Z.of_nat s) (Z.of_nat (length l)) 2 →
  ∃ res,
    setitem_slice l (Z.of_nat s) vals = Ok res
    ∧ length res = length l
    ∧ ∀ j, res !! j
           = if bool_decide (s ≤ j ∧ (j - s) `mod` 2 = 0
                             ∧ (j - s) / 2 < length vals)%nat
             then vals !! ((j - s) / 2)%nat
             else l !! j.
Proof.
  intros Hlen. unfold setitem_slice, range.
  rewrite bool_decide_false by done. simpl.
  rewrite length_fmap, length_seq, <- Hlen, Nat2Z.id.
  rewrite bool_decide_false by (intros ?; done).
  eexists. split; [reflexivity|].
  destruct (fold_setitem_lookup s vals 0 l) as [Hl Hlook].
  { unfold range_length in Hlen. rewrite bool_decide_true in Hlen by lia.
    case_bool_decide; [|lia]. right.
    pose proof (Z.mul_div_le (Z.of_nat (length l) - Z.of_nat s - 1) 2). lia. }
  split; [exact Hl|]. intros j. rewrite Hlook.
  rewrite Nat.mul_0_r, Nat.add_0_r, Nat.sub_0_r. done.
Qed.
End SliceAssignment.

Section InterpolateRun.
Context {Img : Type}.
Context (interpolate_flow blend : Img * Img → Img).
Context (parallelize : (Img * Img → Img) → list (Img * Img) → list Img).

(** The pool helper applies the routine to every group and returns the
    results in the order of the groups. *)
Hypothesis parallelize_map : ∀ f groups, parallelize f groups = f <$> groups.

Lemma interleave_Ok (images interp_frames : list Img) :
  length interp_frames = (length images - 1)%nat →
  ∃ all_frames,
    (all_frames ← setitem_slice (interp_frames ++ images) 0 images;
     all_frames ← setitem_slice all_frames 1 interp_frames;
     Ok all_frames) = Ok all_frames
    ∧ length all_frames = (2 * length images - 1)%nat
    ∧ (∀ i, all_frames !! (2 * i)%nat = images !! i)
    ∧ (∀ i, all_frames !! (2 * i + 1)%nat = interp_frames !! i).
Proof.
  intros Hlen.
  destruct (setitem_slice_spec (interp_frames ++ images) 0 images)
    as (l1 & Hl1 & Hlen1 & Hlook1).
  { unfold range_length. rewrite length_app, Hlen.
    rewrite bool_decide_true by lia. case_bool_decide; [|lia].
    pose proof (Z.div_mod (Z.of_nat (length images - 1 + length images) - 0 - 1) 2
                  ltac:(lia)) as Hdm.
    pose proof (Z.mod_pos_bound
                  (Z.of_nat (length images - 1 + length images) - 0 - 1) 2
                  ltac:(lia)).
    lia. }
  destruct (setitem_slice_spec l1 1 interp_frames)
    as (l2 & Hl2 & Hlen2 & Hlook2).
  { unfold range_length. rewrite Hlen1, length_app, Hlen.
    rewrite bool_decide_true by lia. case_bool_decide; [|lia].
    pose proof (Z.div_mod (Z.of_nat (length images - 1 + length images) - 1 - 1) 2
                  ltac:(lia)) as Hdm.
    pose proof (Z.mod_pos_bound
                  (Z.of_nat (length images - 1 + length images) - 1 - 1) 2
                  ltac:(lia)).
    lia. }
  exists l2. change (Z.of_nat 0) with 0 in Hl1. change (Z.of_nat 1) with 1 in Hl2.
  rewrite length_app in Hlen1.
  split_and!; [by rewrite Hl1; cbn; rewrite Hl2|lia| |].
  - intros i. rewrite Hlook2.
    pose proof (Nat.div_mod_eq (2 * i - 1) 2) as Hdm.
    rewrite bool_decide_false by (intros (? & ? & ?); lia).
    rewrite Hlook1, Nat.sub_0_r.
    replace (2 * i)%nat with (i * 2)%nat by lia.
    rewrite Nat.div_mul, Nat.Div0.mod_mul by done.
    case_bool_decide as Hc; [done|].
    rewrite (lookup_ge_None_2 images i) by lia.
    apply lookup_ge_None_2. rewrite length_app. lia.
  - intros i. rewrite Hlook2.
    replace (2 * i + 1 - 1)%nat with (i * 2)%nat by lia.
    rewrite Nat.div_mul, Nat.Div0.mod_mul by done.
    case_bool_decide as Hc; [done|].
    rewrite (lookup_ge_None_2 interp_frames i) by lia.
    rewrite Hlook1, Nat.sub_0_r.
    pose proof (Nat.div_mod_eq (i * 2 + 1) 2) as Hdm.
    replace (2 * i + 1)%nat with (i * 2 + 1)%nat by lia.
    rewrite bool_decide_false.
    + apply lookup_ge_None_2. rewrite length_app. lia.
    + rewrite Nat.add_comm, Nat.Div0.mod_add. simpl. lia.
Qed.

Lemma InterpolateTool_run_succeeds (mode : string) (images : list Img)
    (fuel : nat) :
  mode = "flow" ∨ mode = "blend" → (length images ≤ fuel)%nat →
  ∃ all_frames,
    InterpolateTool_run interpolate_flow blend parallelize fuel mode images
    = Some (Ok all_frames).
Proof.
  intros Hmode Hfuel. unfold InterpolateTool_run.
  set (f := if bool_decide (mode = "flow") then interpolate_flow else blend).
  assert ((if bool_decide (mode = "flow") then Ok interpolate_flow
           else if bool_decide (mode = "blend") then Ok blend
           else Err ValueError) = Ok f) as ->.
  { unfold f. destruct Hmode as [-> | ->]; reflexivity. }
  change 0 with (Z.of_nat 0) at 1.
  rewrite (group_loop_from images fuel 0 []) by lia.
  cbv beta iota zeta. rewrite app_nil_l, drop_0, parallelize_map.
  destruct (interleave_Ok images (f <$> zip images (drop 1 images)))
    as (all_frames & Hrun & _).
  { rewrite length_fmap, length_zip_with, length_drop. lia. }
  exists all_frames. f_equal. exact Hrun.
Qed.
End InterpolateRun.

(** X14. With a pool helper that maps the routine over the groups in
    order and a mode of [flow] or [blend], the interpolation tool
    returns [2 * len(images) - 1] frames (none for no image): the input
    frames at the even positions, in order, and between two neighbours
    the frame the chosen routine makes of them. Neither slice assignment
    raises. *)
Theorem InterpolateTool_run_interleaves {Img}
    (interpolate_flow blend : Img * Img → Img)
    (parallelize : (Img * Img → Img) → list (Img * Img) → list Img)
    (mode : string) (images : list Img) (fuel : nat) :
  (∀ f groups, parallelize f groups = f <$> groups) →
  mode = "flow" ∨ mode = "blend" → (length images ≤ fuel)%nat →
  let interp_func :=
    if bool_decide (mode = "flow") then interpolate_flow else blend in
  ∃ all_frames,
    InterpolateTool_run interpolate_flow blend parallelize fuel mode images
    = Some (Ok all_frames)
    ∧ length all_frames = (2 * length images - 1)%nat
    ∧ (∀ i, all_frames !! (2 * i)%nat = images !! i)
    ∧ (∀ i a b, images !! i = Some a → images !! S i = Some b →
         all_frames !! (2 * i + 1)%nat = Some (interp_func (a, b))).
Proof.
  intros Hmap Hmode Hfuel interp_func. unfold InterpolateTool_run.
  assert ((if bool_decide (mode = "flow") then Ok interpolate_flow
           else if bool_decide (mode = "blend") then Ok blend
           else Err ValueError) = Ok interp_func) as ->.
  { unfold interp_func. destruct Hmode as [-> | ->]; reflexivity. }
  change 0 with (Z.of_nat 0) at 1.
  rewrite (group_loop_from images fuel 0 []) by lia.
  cbv beta iota zeta. rewrite app_nil_l, drop_0, Hmap.
  destruct (interleave_Ok images (interp_func <$> zip images (drop 1 images)))
    as (all_frames & Hrun & Hlen & Heven & Hodd).
  { rewrite length_fmap, length_zip_with, length_drop. lia. }
  exists all_frames. split_and!; try done.
  - f_equal. exact Hrun.
  - intros i a b Ha Hb. rewrite Hodd, list_lookup_fmap, lookup_zip_with.
    rewrite Ha, lookup_drop. simpl. by rewrite Hb.
Qed.

Lemma InterpolateTool_run_interleaves_witness :
  let interp_func :=
    if bool_decide ("flow" = "flow") then (λ p : Z * Z, p.1 + p.2)
    else (λ _, 0) in
  ∃ all_frames,
    InterpolateTool_run (λ p : Z * Z, p.1 + p.2) (λ _, 0)
      (λ f groups, f <$> groups) 4 "flow" [10; 20; 30; 40]
    = Some (Ok all_frames)
    ∧ length all_frames = (2 * length [10; 20; 30; 40] - 1)%nat
    ∧ (∀ i, all_frames !! (2 * i)%nat = [10; 20; 30; 40] !! i)
    ∧ (∀ i a b, [10; 20; 30; 40] !! i = Some a →
         [10; 20; 30; 40] !! S i = Some b →
         all_frames !! (2 * i + 1)%nat = Some (interp_func (a, b))).
Proof.
  apply (InterpolateTool_run_interleaves (λ p : Z * Z, p.1 + p.2) (λ _, 0)
           (λ f groups, f <$> groups) "flow" [10; 20; 30; 40] 4).
  - reflexivity.
  - left. reflexivity.
  - vm_compute. lia.
Defined.

(** X15. With such a pool helper the interpolation tool raises exactly
    when the mode is neither [flow] nor [blend], and then it is
    [ValueError], whatever the images. *)
Theorem InterpolateTool_run_invalid_mode {Img}
    (interpolate_flow blend : Img * Img → Img)
    (parallelize : (Img * Img → Img) → list (Img * Img) → list Img)
    (mode : string) (images : list Img) (fuel : nat) :
  (∀ f groups, parallelize f groups = f <$> groups) →
  (length images ≤ fuel)%nat →
  (mode ≠ "flow" ∧ mode ≠ "blend"
   ↔ ∃ e, InterpolateTool_run interpolate_flow blend parallelize fuel mode
            images = Some (Err e))
  ∧ (mode ≠ "flow" ∧ mode ≠ "blend" →
     InterpolateTool_run interpolate_flow blend parallelize fuel mode images
     = Some (Err ValueError)).
Proof.
  intros Hmap Hfuel.
  assert (mode ≠ "flow" ∧ mode ≠ "blend" →
    InterpolateTool_run interpolate_flow blend parallelize fuel mode images
    = Some (Err ValueError)) as Hinvalid.
  { intros [H1 H2]. unfold InterpolateTool_run.
    by rewrite !bool_decide_false by done. }
  split; [|done]. split.
  - intros Hmode. exists ValueError. by apply Hinvalid.
  - intros [e He].
    destruct (decide (mode = "flow")) as [Hf|Hf];
      [|destruct (decide (mode = "blend")) as [Hb|Hb]; [|done]].
    + destruct (InterpolateTool_run_succeeds interpolate_flow blend
                  parallelize Hmap mode images fuel (or_introl Hf) Hfuel)
        as (all_frames & Hrun).
      rewrite Hrun in He. done.
    + destruct (InterpolateTool_run_succeeds interpolate_flow blend
                  parallelize Hmap mode images fuel (or_intror Hb) Hfuel)
        as (all_frames & Hrun).
      rewrite Hrun in He. done.
Qed.

Lemma InterpolateTool_run_invalid_mode_witness :
  ("linear" ≠ "flow" ∧ "linear" ≠ "blend"
   ↔ ∃ e, InterpolateTool_run (λ p : Z * Z, p.1 + p.2) (λ _, 0)
            (λ f groups, f <$> groups) 2 "linear" [10; 20] = Some (Err e))
  ∧ ("linear" ≠ "flow" ∧ "linear" ≠ "blend" →
     InterpolateTool_run (λ p : Z * Z, p.1 + p.2) (λ _, 0)
       (λ f groups, f <$> groups) 2 "linear" [10; 20]
     = Some (Err ValueError)).
Proof.
  apply (InterpolateTool_run_invalid_mode (λ p : Z * Z, p.1 + p.2) (λ _, 0)
           (λ f groups, f <$> groups) "linear" [10; 20] 2).
  - reflexivity.
  - vm_compute. lia.
Defined.

(** * Further properties of the launches *)

(** X16. When [remote_blender] succeeds and the two dates differ, the
    copy of the input file has been started and waited on immediately
    before the render process is started on the host: the launch is the
    last event and the copy and its wait are the two before it. *)
Theorem remote_blender_copy_before_launch (w : World)
    (host bf out : string) (frames : option (list Z))
    (h e1 e2 : list event) (remote_date local_date : string) :
  get_file_mod_date bf host w h = (e1, Ok remote_date) →
  get_file_mod_date bf "localhost" w (h ++ e1) = (e2, Ok local_date) →
  remote_date ≠ local_date →
  ∃ p pid,
    remote_blender host bf out frames w h
    = (e1 ++ e2 ++ [EPopen p (scp_p_command bf host); EWait p;
                    EPopen pid (ssh_command host (blender_command bf out frames))],
       Ok pid)
    ∧ p = (length h + 4)%nat ∧ pid = (length h + 6)%nat.
Proof.
  intros Hremote Hlocal Hdates.
  rewrite get_file_mod_date_eq in Hremote.
  destruct (regex_search _) as [d1|] eqn:Hd1 in Hremote; [|done].
  injection Hremote as <- ->.
  rewrite get_file_mod_date_eq in Hlocal.
  destruct (regex_search _) as [d2|] eqn:Hd2 in Hlocal; [|done].
  injection Hlocal as <- ->.
  rewrite length_app in Hd2. simpl in Hd2.
  exists (length h + 4)%nat, (length h + 6)%nat.
  rewrite remote_blender_eq, Hd1, Hd2.
  rewrite bool_decide_true by done. cbn [length app].
  replace (length h + 4 + 2)%nat with (length h + 6)%nat by lia.
  rewrite !length_app. done.
Qed.

Lemma remote_blender_copy_before_launch_witness :
  ∃ p pid,
    remote_blender "w1" "a.blend" "out" (Some [1; 2]) stale_world []
    = ([EPopen 0 (stat_command "a.blend" "w1"); ECommunicate 0]
       ++ [EPopen 2 (stat_command "a.blend" "localhost"); ECommunicate 2]
       ++ [EPopen p (scp_p_command "a.blend" "w1"); EWait p;
           EPopen pid (ssh_command "w1"
                         (blender_command "a.blend" "out" (Some [1; 2])))],
       Ok pid)
    ∧ p = (length (@nil event) + 4)%nat
    ∧ pid = (length (@nil event) + 6)%nat.
Proof.
  apply (remote_blender_copy_before_launch stale_world "w1" "a.blend" "out"
           (Some [1; 2]) []
           [EPopen 0 (stat_command "a.blend" "w1"); ECommunicate 0]
           [EPopen 2 (stat_command "a.blend" "localhost"); ECommunicate 2]
           "Modify: 2019-12-31 23:59:59" "Modify: 2020-01-02 03:04:05");
    [reflexivity|reflexivity|discriminate].
Defined.

(** X17. A dispatch to the local host alone involves no other machine
    and no timestamp query: whatever its outcome, it reads the output
    of no process, the only process it starts is the local [blender]
    command that carries the whole frame range, and its trace and
    outcome are the same whatever the processes print or return. *)
Theorem run_localhost_only (w w' : World) (args : Args)
    (h tr : list event) (r : res ()) :
  distribute args = ["localhost"] →
  _run args w h = (tr, r) →
  (∀ pid, ECommunicate pid ∉ tr)
  ∧ (∀ pid cmd, EPopen pid cmd ∈ tr →
       ∃ frames,
         frames_of args = Ok frames
         ∧ cmd = blender_command (blend_file args) (output args) (Some frames))
  ∧ _run args w' h = (tr, r).
Proof.
  intros Hhosts.
  assert (∀ w0, _run args w0 h
    = match frames_of args with
      | Ok frames =>
          ([EPopen (length h)
              (blender_command (blend_file args) (output args) (Some frames));
            EWait (length h)], Ok ())
      | Err e => ([], Err e)
      end) as Hrun.
  { intros w0. unfold _run. rewrite run_bind_lift.
    destruct (frames_of args) as [frames|e]; [|done].
    rewrite run_bind_lift, Hhosts.
    destruct (split_frames_per_host_one frames "localhost") as [_ ->].
    rewrite run_bind, for_each_cons.
    unfold launch at 1. rewrite run_bind_lift. unfold getitem.
    rewrite lookup_singleton_eq, bool_decide_true by done.
    rewrite blender_eq. reflexivity. }
  rewrite (Hrun w), (Hrun w').
  destruct (frames_of args) as [frames|e]; intros [= <- <-].
  - split_and!; [| |done].
    + intros pid Hin. repeat (apply elem_of_cons in Hin as [Hin|Hin]);
        try done. by apply elem_of_nil in Hin.
    + intros pid cmd Hin. exists frames. split; [done|].
      repeat (apply elem_of_cons in Hin as [Hin|Hin]); simplify_eq; try done.
      by apply elem_of_nil in Hin.
  - split_and!; [| |done].
    + intros pid Hin. by apply elem_of_nil in Hin.
    + intros pid cmd Hin. by apply elem_of_nil in Hin.
Qed.

Lemma run_localhost_only_witness :
  let args := demo_args ["localhost"] 1 3 in
  let tr := [EPopen 0 (blender_command "a.blend" "out" (Some [1; 2; 3]));
             EWait 0] in
  (∀ pid, ECommunicate pid ∉ tr)
  ∧ (∀ pid cmd, EPopen pid cmd ∈ tr →
       ∃ frames,
         frames_of args = Ok frames
         ∧ cmd = blender_command (blend_file args) (output args) (Some frames))
  ∧ _run args quiet_world [] = (tr, Ok ()).
Proof.
  apply (run_localhost_only silent_world quiet_world
           (demo_args ["localhost"] 1 3) []); reflexivity.
Defined.
